(** * lib/statistics/utils.py: rank, fullrank, StepFunction, ECDF and
      monotone_fn_inverter

    A shallow embedding of the module over IEEE binary64 numbers (Rocq's
    primitive floats, which are the doubles numpy computes with).  Python
    exceptions are values of [exn]; a function that can raise returns a
    [result].  The array-library primitives the module calls ([N.hstack],
    [N.take], [scipy.searchsorted], ...) are modelled in the modules [N]
    and [scipy].  The sorting primitives [N.argsort] and [ndarray.sort],
    whose order among equal elements the library leaves open, and the dense
    linear-algebra primitives [L.pinv] and [L.svd] are parameters of the
    functions that call them; what the module relies on in them is stated
    as [argsort_contract], [sort_contract] and [svd_contract]. *)

From Stdlib Require Import String ZArith Bool Lia Floats List Permutation Sorted.
Import ListNotations.

Set Implicit Arguments.

(** ** Exceptions and the error monad *)

Inductive exn : Type :=
| ValueError (msg : string)
| IndexError
| NameError (name : string)
| LinAlgError.

Inductive result (A : Type) : Type :=
| Ok (a : A)
| Raise (e : exn).

Arguments Ok {A} a.
Arguments Raise {A} e.

Definition bind {A B : Type} (m : result A) (k : A -> result B) : result B :=
  match m with
  | Ok a => k a
  | Raise e => Raise e
  end.

Declare Scope py_scope.
Delimit Scope py_scope with py.
Notation "x <- m ;; k" := (bind m (fun x => k))
  (at level 61, m at next level, right associativity) : py_scope.
Notation "' p <- m ;; k" := (bind m (fun x => match x with p => k end))
  (at level 61, p pattern, m at next level, right associativity) : py_scope.
Open Scope py_scope.

(** A [for] loop that appends one computed item per element and stops at the
    first exception. *)
Fixpoint mapM {A B : Type} (f : A -> result B) (l : list A) : result (list B) :=
  match l with
  | [] => Ok []
  | a :: l' => b <- f a ;; bs <- mapM f l' ;; Ok (b :: bs)
  end.

Definition raises {A : Type} (m : result A) : bool :=
  match m with
  | Ok _ => false
  | Raise _ => true
  end.

(** [a[i]] on a sequence: a negative index counts from the end, an index
    outside [-len, len) raises IndexError. *)
Definition getitem {A : Type} (a : list A) (i : Z) : result A :=
  let n := Z.of_nat (length a) in
  let j := if (i <? 0)%Z then (i + n)%Z else i in
  if ((0 <=? j)%Z && (j <? n)%Z)%bool then
    match nth_error a (Z.to_nat j) with
    | Some v => Ok v
    | None => Raise IndexError
    end
  else Raise IndexError.

(** [range(r)]: empty when [r <= 0]. *)
Definition range (r : Z) : list nat := seq 0 (Z.to_nat r).

(** Conversion of a non-negative machine integer to a double. *)
Definition float_of_nat (i : nat) : float :=
  PrimFloat.of_uint63 (Uint63.of_Z (Z.of_nat i)).

(** ** numpy *)

Module N.

Definition inf : float := infinity.

(** An n-dimensional array of doubles: its shape and its elements in
    row-major order. *)
Record ndarray : Type := mk_ndarray { shape : list nat; data : list float }.

Definition ndim (a : ndarray) : nat := length (shape a).

(** [N.product(shape)], the number of elements. *)
Definition product (s : list nat) : nat := fold_right Nat.mul 1 s.

Definition size (a : ndarray) : nat := product (shape a).

Definition wf (a : ndarray) : Prop := length (data a) = size a.

(** [N.asarray] of an array is that array. *)
Definition asarray (a : ndarray) : ndarray := a.

(** A one-dimensional array from a sequence. *)
Definition array1 (l : list float) : ndarray :=
  mk_ndarray [length l] l.

(** [N.array] of a list of equally long rows; the empty list gives the
    one-dimensional empty array of shape (0,). *)
Definition array2 (rows : list (list float)) : ndarray :=
  match rows with
  | [] => mk_ndarray [0] []
  | r0 :: _ => mk_ndarray [length rows; length r0] (concat rows)
  end.

Definition shape_eqb (s1 s2 : list nat) : bool :=
  if list_eq_dec Nat.eq_dec s1 s2 then true else false.

(** Row-major multi-index of a flat position, and back. *)
Fixpoint unravel (s : list nat) (k : nat) : list nat :=
  match s with
  | [] => []
  | _ :: s' => (k / product s') :: unravel s' (k mod product s')
  end.

Fixpoint ravel (s : list nat) (idx : list nat) : nat :=
  match s, idx with
  | _ :: s', i :: idx' => i * product s' + ravel s' idx'
  | _, _ => 0
  end.

(** [N.transpose]: the axes reversed. *)
Definition transpose (a : ndarray) : ndarray :=
  let s' := rev (shape a) in
  mk_ndarray s'
    (map (fun k => nth (ravel (shape a) (rev (unravel s' k))) (data a) nan)
         (seq 0 (length (data a)))).

(** [N.hstack] of one-dimensional pieces. *)
Definition hstack (pieces : list (list float)) : list float := concat pieces.

(** The order in which numpy sorts and searches doubles: [a] comes before
    [b] when [a < b], and also when [b] is NaN and [a] is not, so that NaN
    comes after every number. *)
Definition less (a b : float) : bool :=
  ((a <? b)%float || (is_nan b && negb (is_nan a)))%bool.

(** [N.take(a, indices)]. *)
Definition take (a : list float) (indices : list nat) : result (list float) :=
  mapM (fun i => getitem a (Z.of_nat i)) indices.

(** [N.arange(n)] as doubles. *)
Definition arange (n : nat) : list float := map float_of_nat (seq 0 n).

(** [N.greater(a, c)], elementwise [a > c]. *)
Definition greater (a : list float) (c : float) : list bool :=
  map (fun v => (c <? v)%float) a.

(** [a / d], elementwise. *)
Definition divide (a : list float) (d : float) : list float :=
  map (fun v => (v / d)%float) a.

(** [.astype(N.Int)] of a boolean array. *)
Definition astype_Int (a : list bool) : list Z :=
  map (fun b : bool => if b then 1%Z else 0%Z) a.

(** [N.add.reduce]. *)
Definition add_reduce (a : list Z) : Z := fold_right Z.add 0%Z a.

(** [N.maximum(a, c)], elementwise: the larger of the element and [c]; an
    element that is NaN is returned as it is. *)
Definition maximum (a : list float) (c : float) : list float :=
  map (fun v => if ((c <=? v)%float || is_nan v)%bool then v else c) a.

(** [N.less_equal(a, c)] and [N.equal(a, c)], elementwise. *)
Definition less_equal (a : list float) (c : float) : list bool :=
  map (fun v => (v <=? c)%float) a.

Definition equal (a : list float) (c : float) : list bool :=
  map (fun v => (v =? c)%float) a.

(** A boolean array that enters arithmetic with doubles: True is 1.0 and
    False is 0.0. *)
Definition float_of_bools (a : list bool) : list float :=
  map (fun b : bool => if b then 1%float else 0%float) a.

(** [a + b] and [a / b] on two arrays of one shape, elementwise. *)
Definition add_arrays (a b : list float) : list float :=
  map (fun p : float * float => (fst p + snd p)%float) (combine a b).

Definition divide_arrays (a b : list float) : list float :=
  map (fun p : float * float => (fst p / snd p)%float) (combine a b).

(** [c / a] with a scalar on the left, elementwise. *)
Definition rdivide (c : float) (a : list float) : list float :=
  map (fun v => (c / v)%float) a.

(** [N.where(test, c, b)]: [c] where the test holds, the element of [b]
    elsewhere. *)
Definition where_ (test : list bool) (c : float) (b : list float) : list float :=
  map (fun p : bool * float => if fst p then c else snd p) (combine test b).

End N.

(** ** scipy *)

Module scipy.

(** The binary search of [searchsorted(a, v)] with its default side
    ('left'): while [lo < hi], a middle element that comes before the key
    in numpy's order moves [lo] past it, any other moves [hi] down to it;
    the result is [lo].  [fuel] bounds the number of iterations; [hi - lo]
    is enough. *)
Fixpoint binsearch_left (fuel : nat) (a : list float) (key : float)
         (lo hi : nat) : nat :=
  match fuel with
  | O => lo
  | S fuel' =>
      if lo <? hi then
        let mid := lo + (hi - lo) / 2 in
        if N.less (nth mid a nan) key
        then binsearch_left fuel' a key (S mid) hi
        else binsearch_left fuel' a key lo mid
      else lo
  end.

(** [searchsorted(a, v)] for one key. *)
Definition searchsorted (a : list float) (v : float) : nat :=
  binsearch_left (length a) a v 0 (length a).

(** The loop over the keys of [searchsorted(a, v)] for an array [v]: the
    search for a key starts from the bounds the search for the key before
    has left.  When the key before comes before this key, the lower bound
    stays and the upper bound is the length; otherwise the lower bound is 0
    and the upper bound is the last upper bound plus one (the length at
    most).  When a search ends, [min_idx] and [max_idx] are both the
    position found.  For the first key the key before is that key itself,
    and the bounds are 0 and the length. *)
Fixpoint binsearch_keys (a keys : list float) (last_key_val : float)
         (min_idx max_idx : nat) : list nat :=
  match keys with
  | [] => []
  | key_val :: keys' =>
      let lo := if N.less last_key_val key_val then min_idx else 0 in
      let hi := if N.less last_key_val key_val then length a
                else if max_idx <? length a then S max_idx else length a in
      let r := binsearch_left (length a) a key_val lo hi in
      r :: binsearch_keys a keys' key_val r r
  end.

Definition searchsorted_array (a keys : list float) : list nat :=
  match keys with
  | [] => []
  | key0 :: _ => binsearch_keys a keys key0 0 (length a)
  end.

End scipy.

(** ** The module's name space

    The names bound at the top level of utils.py: its three imports and its
    definitions.  A function body that mentions any other name (and no
    builtin) raises NameError when that line runs. *)

Definition module_globals : list string :=
  ["N"; "L"; "scipy"; "inv"; "inv0"; "clean0"; "norm"; "rank"; "fullrank";
   "StepFunction"; "ECDF"; "monotone_fn_inverter"]%string.

Definition load_global (name : string) : result unit :=
  if existsb (String.eqb name) module_globals then Ok tt
  else Raise (NameError name).

(** ** inv and inv0

    Both work elementwise and keep the shape of their argument. *)

(** The denominator [x + N.less_equal(x, 0.)] of [inv]. *)
Definition inv_denominator (x : list float) : list float :=
  N.add_arrays x (N.float_of_bools (N.less_equal x 0%float)).

Definition inv (X : N.ndarray) : N.ndarray :=
  let x := N.maximum (N.data X) 0%float in
  N.mk_ndarray (N.shape X)
    (N.divide_arrays (N.float_of_bools (N.greater x 0%float))
                     (inv_denominator x)).

Definition inv0 (X : N.ndarray) : N.ndarray :=
  let test := N.equal (N.data X) 0%float in
  N.mk_ndarray (N.shape X) (N.where_ test 0%float (N.rdivide 1%float (N.data X))).

(** ** rank and fullrank

    [L.pinv] and [L.svd] are the linear-algebra library's; [L.svd] returns
    the left singular vectors (a list of rows), the singular values and the
    right singular vectors.  [N.argsort] is numpy's; it returns the
    positions of a sequence in an order in which the elements are sorted
    (equal elements in an order the library leaves open). *)

Definition matrix : Type := list (list float).

(** [1.0e-06], the default of [cond]; the literal is the double nearest to
    it. *)
Definition default_cond : float := 0x1.0c6f7a0b5ed8dp-20%float.

(** [V[:, j]]: column [j] of a two-dimensional array. *)
Definition column (V : matrix) (j : Z) : result (list float) :=
  mapM (fun row => getitem row j) V.

Section Linalg.

Variable N_argsort : list float -> list nat.
Variable L_pinv : N.ndarray -> result N.ndarray.
Variable L_svd : N.ndarray -> result (matrix * list float * matrix).

(** The intermediate array [D / D[0]] of [rank]. *)
Definition rank_ratios (D : list float) : result (list float) :=
  d0 <- getitem D 0 ;;
  Ok (N.divide D d0).

Definition rank (X : N.ndarray) (cond : float) : result Z :=
  pX <- L_pinv X ;;
  '(V, D, U) <- L_svd (N.transpose X) ;;
  ratios <- rank_ratios D ;;
  Ok (N.add_reduce (N.astype_Int (N.greater ratios cond))).

(** The loop of [fullrank]: the columns appended to [value]. *)
Definition fullrank_value (V : matrix) (order : list nat) (r : Z)
  : result (list (list float)) :=
  mapM (fun i => j <- getitem order (Z.of_nat i) ;; column V (Z.of_nat j))
       (range r).

Definition fullrank (X : N.ndarray) (r : option Z) : result N.ndarray :=
  r <- match r with
       | None => rank X default_cond
       | Some r => Ok r
       end ;;
  '(V, D, U) <- L_svd X ;;
  let order := N_argsort D in
  let order := rev order in
  value <- fullrank_value V order r ;;
  Ok (N.transpose (N.array2 value)).

End Linalg.

(** ** StepFunction *)

Module StepFunction.

Record t : Type := mk { x : list float; y : list float; n : nat }.

Definition __init__ (N_argsort : list float -> list nat)
           (x y : N.ndarray) (ival : float) (sorted : bool) : result t :=
  let _x := N.asarray x in
  let _y := N.asarray y in
  if negb (N.shape_eqb (N.shape _x) (N.shape _y)) then
    Raise (ValueError "in StepFunction: x and y do not have the same shape")
  else if negb (length (N.shape _x) =? 1) then
    Raise (ValueError "in StepFunction: x and y must be 1-dimensional")
  else
    let self_x := N.hstack [[(- N.inf)%float]; N.data _x] in
    let self_y := N.hstack [[ival]; N.data _y] in
    '(self_x, self_y) <-
      (if negb sorted then
         let asort := N_argsort self_x in
         sx <- N.take self_x asort ;;
         sy <- N.take self_y asort ;;
         Ok (sx, sy)
       else Ok (self_x, self_y)) ;;
    Ok (mk self_x self_y (length self_x)).

(** [__call__] at one query point. *)
Definition __call__ (self : t) (time : float) : result float :=
  let tind := (Z.of_nat (scipy.searchsorted (x self) time) - 1)%Z in
  getitem (y self) tind.

(** [__call__] at an array of query points, given by its elements in
    row-major order (the result has the shape of the array): one call of
    [searchsorted] on the whole array, and [self.y] indexed by the array of
    positions. *)
Definition call_array (self : t) (time : list float) : result (list float) :=
  let tind := map (fun r => (Z.of_nat r - 1)%Z)
                  (scipy.searchsorted_array (x self) time) in
  mapM (fun i => getitem (y self) i) tind.

End StepFunction.

(** ** ECDF of a one-dimensional sample

    [N_sort] is [x.sort()], numpy's sort of the copy of the sample;
    [N_argsort] is the argsort the StepFunction constructor calls. *)

Definition ECDF (N_sort : list float -> list float)
           (N_argsort : list float -> list nat) (values : list float)
  : result StepFunction.t :=
  let x := N_sort values in
  let n := length x in
  let y := N.divide (map (fun v => (v + 1)%float) (N.arange n)) (float_of_nat n) in
  StepFunction.__init__ N_argsort (N.array1 x) (N.array1 y) 0%float false.

(** ** monotone_fn_inverter

    [fn] is called on the whole array when [vectorized] and on one element
    at a time otherwise: a callable has both modes of application.  The
    keywords are passed on to every call unchanged and are part of [fn]
    here. *)

Record pyfunc : Type := mk_pyfunc {
  on_array : list float -> list float;
  on_scalar : float -> float
}.

Section Inverter.

(** What the name LinearInterpolant would stand for, were it bound. *)
Variable Interpolant : Type.
Variable LinearInterpolant : list float -> list float -> bool -> result Interpolant.

(** The value of [y] when the last line is reached. *)
Definition inverter_samples (fn : pyfunc) (x : list float)
           (vectorized : bool) : list float :=
  if vectorized then on_array fn x
  else map (fun _x => on_scalar fn _x) x.

Definition monotone_fn_inverter (fn : pyfunc) (x : list float)
           (vectorized : bool) : result Interpolant :=
  let y := inverter_samples fn x vectorized in
  _ <- load_global "LinearInterpolant" ;;
  LinearInterpolant y x false.

End Inverter.

(** ** Vocabulary of the statements *)

(** Adjacent elements in non-decreasing order. *)
Fixpoint ascendingb (a : list float) : bool :=
  match a with
  | [] => true
  | v :: a' =>
      match a' with
      | [] => true
      | w :: _ => (v <=? w)%float && ascendingb a'
      end
  end.

(** Adjacent elements in non-increasing order. *)
Fixpoint descendingb (a : list float) : bool :=
  match a with
  | [] => true
  | v :: a' =>
      match a' with
      | [] => true
      | w :: _ => (w <=? v)%float && descendingb a'
      end
  end.

(** Ascending and free of NaN, so that [v <= w] holds for every element [v]
    and every element [w] at the same or a later position. *)
Definition nondecreasingb (a : list float) : bool :=
  ascendingb a && forallb (fun v => (v <=? v)%float) a.

(** No element is NaN. *)
Definition nan_free (a : list float) : bool :=
  forallb (fun v => (v =? v)%float) a.

(** Sorted in numpy's order: no element comes before its predecessor, and
    NaN comes last. *)
Fixpoint sortedb (a : list float) : bool :=
  match a with
  | [] => true
  | v :: a' =>
      match a' with
      | [] => true
      | w :: _ => negb (N.less w v) && sortedb a'
      end
  end.

(** Adjacent elements in strictly increasing order. *)
Fixpoint strictly_ascendingb (a : list float) : bool :=
  match a with
  | [] => true
  | v :: a' =>
      match a' with
      | [] => true
      | w :: _ => (v <? w)%float && strictly_ascendingb a'
      end
  end.

(** Position [j] may stand before position [i] in a sorted order of [a]:
    the element at [i] does not come before the element at [j]. *)
Definition may_precede (a : list float) (j i : nat) : Prop :=
  N.less (nth i a nan) (nth j a nan) = false.

(** No two elements tie in numpy's order: of any two, one comes before the
    other.  (Equal numbers tie, zeros of both signs tie, two NaN tie.) *)
Fixpoint distinctb (a : list float) : bool :=
  match a with
  | [] => true
  | v :: a' => forallb (fun w => N.less v w || N.less w v) a' && distinctb a'
  end.

(** The number of elements that satisfy a test, as [rank] counts them. *)
Definition count_if (p : float -> bool) (a : list float) : Z :=
  Z.of_nat (length (filter p a)).

(** The largest element of a non-empty sequence. *)
Definition maximum (a : list float) : float :=
  match a with
  | [] => nan
  | d0 :: rest => fold_left (fun m v => if (m <? v)%float then v else m) rest d0
  end.

Definition is_zero (v : float) : bool := (v =? 0)%float.

(** The two ValueErrors of [StepFunction.__init__], under the names the
    error taxonomy gives them. *)
Definition ShapeMismatch : exn :=
  ValueError "in StepFunction: x and y do not have the same shape".

Definition DimensionError : exn :=
  ValueError "in StepFunction: x and y must be 1-dimensional".

Definition error_message (e : exn) : string :=
  match e with
  | ValueError msg => msg
  | NameError name => name
  | IndexError | LinAlgError => EmptyString
  end.

(** ** What the module relies on in the sorting primitives

    [N.argsort] returns every position once, in an order in which the
    elements are sorted; [ndarray.sort] rearranges the elements into sorted
    order.  Neither says in which order equal elements come out: numpy's
    default sort is not stable. *)

Definition argsort_contract (argsort : list float -> list nat) : Prop :=
  forall a,
    Permutation (argsort a) (seq 0 (length a)) /\
    sortedb (map (fun i => nth i a nan) (argsort a)) = true.

Definition sort_contract (sort : list float -> list float) : Prop :=
  forall a, Permutation (sort a) a /\ sortedb (sort a) = true.

(** ** Sorting primitives to run the examples on

    Insertion sorts of the positions.  [argsort_from positions a] inserts
    the positions one by one, from the last of [positions] to the first,
    each behind the leading positions whose elements come before its own:
    positions with tied elements come out in the order of [positions]. *)
Fixpoint insert_index (a : list float) (i : nat) (l : list nat) : list nat :=
  match l with
  | [] => [i]
  | j :: l' =>
      if N.less (nth j a nan) (nth i a nan)
      then j :: insert_index a i l'
      else i :: l
  end.

Definition argsort_from (positions : list nat) (a : list float) : list nat :=
  fold_right (insert_index a) [] positions.

(** A stable sort: tied elements stay in the order of their positions. *)
Definition argsort_stable (a : list float) : list nat :=
  argsort_from (seq 0 (length a)) a.

Definition sort_stable (a : list float) : list float :=
  map (fun i => nth i a nan) (argsort_stable a).

(** A sort that is not stable: it takes the positions from the fifth on
    first and the positions before it last, so that of tied elements those
    at the positions 5, 6, ... come out in front of those at 0, ..., 4. *)
Definition rotated (n : nat) : list nat :=
  let k := Nat.min 5 n in seq k (n - k) ++ seq 0 k.

Definition argsort_rotated (a : list float) : list nat :=
  argsort_from (rotated (length a)) a.

(** What [StepFunction.__init__] stores for one-dimensional [x] and [y]. *)
Definition stored (N_argsort : list float -> list nat) (x y : list float)
           (ival : float) (sorted : bool) : StepFunction.t :=
  let self_x := (- N.inf)%float :: x in
  let self_y := ival :: y in
  if sorted then StepFunction.mk self_x self_y (length self_x)
  else
    let asort := N_argsort self_x in
    StepFunction.mk (map (fun i => nth i self_x nan) asort)
                    (map (fun i => nth i self_y nan) asort)
                    (length asort).

(** ** Sample inputs *)

(** Breakpoints 0, 1, 2 with values 10, 20, 30. *)
Definition steps_x : N.ndarray := N.array1 [0; 1; 2]%float.
Definition steps_y : N.ndarray := N.array1 [10; 20; 30]%float.

(** The StepFunction built from them. *)
Definition steps : StepFunction.t :=
  StepFunction.mk [- N.inf; 0; 1; 2]%float [0; 10; 20; 30]%float 4.

(** The same breakpoints and values in another order. *)
Definition unsorted_x : N.ndarray := N.array1 [2; 0; 1]%float.
Definition unsorted_y : N.ndarray := N.array1 [30; 10; 20]%float.

(** Ascending breakpoints with ties: eight times 0 and eight times 1, with
    the values 1, 2, ..., 16. *)
Definition ties_x : N.ndarray :=
  N.array1 (repeat 0%float 8 ++ repeat 1%float 8).
Definition ties_y : N.ndarray :=
  N.array1 (map (fun v => (v + 1)%float) (N.arange 16)).

(** A two by two array, for the shape checks. *)
Definition square_x : N.ndarray := N.mk_ndarray [2; 2] [0; 1; 2; 3]%float.

(** The sample [5, 1, 3, 2, 4]. *)
Definition sample : list float := [5; 1; 3; 2; 4]%float.

(** The first [r] left singular vectors, taken in descending order of the
    singular values: column [order[i]] of [V] for [i] in [range(r)], with
    [order] the reversed argsort of [D]. *)
Definition top_columns (N_argsort : list float -> list nat)
           (V : matrix) (D : list float) (r : Z) : list (list float) :=
  let order := rev (N_argsort D) in
  map (fun i => map (fun row => nth (nth i order 0) row nan) V) (range r).

(** ** Linear-algebra primitives on small matrices

    Exact decompositions of one by one matrices, of non-negative two by two
    diagonal matrices and of two-dimensional arrays without elements, to
    run [rank] and [fullrank] on.  Every other argument is refused with
    LinAlgError. *)

(** [[a]] = [[1]] . diag(|a|) . [[sign a]]. *)
Definition svd_1x1 (X : N.ndarray) : result (matrix * list float * matrix) :=
  match N.shape X, N.data X with
  | [1; 1], [a] =>
      Ok ([[1%float]], [abs a], [[if (a <? 0)%float then (-1)%float else 1%float]])
  | _, _ => Raise LinAlgError
  end.

Definition pinv_1x1 (X : N.ndarray) : result N.ndarray :=
  match N.shape X, N.data X with
  | [1; 1], [a] =>
      Ok (N.mk_ndarray [1; 1] [if (a =? 0)%float then 0%float else (1 / a)%float])
  | _, _ => Raise LinAlgError
  end.

Definition is_diagonal (b c a d : float) : bool :=
  (b =? 0)%float && (c =? 0)%float && (0 <=? a)%float && (0 <=? d)%float.

(** The singular values of diag(a, d) in descending order, as the library
    returns them: diag(a, d) = I . diag(a, d) . I when [d <= a], and
    diag(a, d) = P . diag(d, a) . P with the exchange matrix P otherwise. *)
Definition svd_diagonal (X : N.ndarray) : result (matrix * list float * matrix) :=
  match N.shape X, N.data X with
  | [2; 2], [a; b; c; d] =>
      if is_diagonal b c a d then
        if (d <=? a)%float
        then Ok ([[1; 0]; [0; 1]]%float, [a; d], [[1; 0]; [0; 1]]%float)
        else Ok ([[0; 1]; [1; 0]]%float, [d; a], [[0; 1]; [1; 0]]%float)
      else Raise LinAlgError
  | _, _ => Raise LinAlgError
  end.

Definition pinv_diagonal (X : N.ndarray) : result N.ndarray :=
  match N.shape X, N.data X with
  | [2; 2], [a; b; c; d] =>
      if is_diagonal b c a d then
        Ok (N.mk_ndarray [2; 2]
              [if (a =? 0)%float then 0%float else (1 / a)%float; 0%float;
               0%float; if (d =? 0)%float then 0%float else (1 / d)%float])
      else Raise LinAlgError
  | _, _ => Raise LinAlgError
  end.

(** The identity matrix. *)
Definition identity (m : nat) : matrix :=
  map (fun i => map (fun j => if i =? j then 1%float else 0%float) (seq 0 m))
      (seq 0 m).

(** A two-dimensional array without elements has no singular value, and its
    generalized inverse is the empty array of the transposed shape. *)
Definition svd_empty (X : N.ndarray) : result (matrix * list float * matrix) :=
  match N.shape X, N.data X with
  | [m; n], [] =>
      if m * n =? 0 then Ok (identity m, [], identity n) else Raise LinAlgError
  | _, _ => Raise LinAlgError
  end.

Definition pinv_empty (X : N.ndarray) : result N.ndarray :=
  match N.shape X, N.data X with
  | [m; n], [] =>
      if m * n =? 0 then Ok (N.mk_ndarray [n; m] []) else Raise LinAlgError
  | _, _ => Raise LinAlgError
  end.

(** ** What [rank] and [fullrank] rely on in the primitives

    [L.svd] returns only for a two-dimensional array, m by n say; then
    there are min(m, n) singular values and the matrix of left singular
    vectors is m by m; and the singular values of an all-zero matrix are
    all zero.  Nothing is asked of [L.pinv]: [rank] does not use its
    result. *)

Definition svd_contract
           (svd : N.ndarray -> result (matrix * list float * matrix)) : Prop :=
  forall A V D U,
    svd A = Ok (V, D, U) ->
    exists m n,
      N.shape A = [m; n] /\
      length D = Nat.min m n /\
      length V = m /\
      Forall (fun row => length row = m) V /\
      (forallb is_zero (N.data A) = true -> forallb is_zero D = true).

Definition matrix_0 : N.ndarray := N.mk_ndarray [1; 1] [0%float].
Definition matrix_diag_1_2 : N.ndarray := N.mk_ndarray [2; 2] [1; 0; 0; 2]%float.
Definition matrix_diag_2_1 : N.ndarray := N.mk_ndarray [2; 2] [2; 0; 0; 1]%float.
Definition matrix_empty : N.ndarray := N.mk_ndarray [0; 3] [].
Definition scalar_5 : N.ndarray := N.mk_ndarray [] [5%float].


(** ** Column spaces

    The rows of a two-dimensional array, its columns, and the combinations
    of the columns with coefficients [c], computed in doubles from the
    left. *)
Definition rows (A : N.ndarray) : matrix :=
  match N.shape A with
  | [m; n] => map (fun i => firstn n (skipn (i * n) (N.data A))) (seq 0 m)
  | _ => []
  end.





(** ** Entries of [inv] and [inv0]

    What the array expressions of [inv] and [inv0] compute at one entry [v]:
    [clip v] is the entry of [N.maximum(X, 0)], [denominator_entry] that of
    [x + N.less_equal(x, 0.)]. *)
Definition clip (v : float) : float :=
  if ((0 <=? v)%float || is_nan v)%bool then v else 0%float.

Definition denominator_entry (x : float) : float :=
  (x + (if (x <=? 0)%float then 1 else 0))%float.

Definition inv_entry (v : float) : float :=
  ((if (0 <? clip v)%float then 1 else 0) / denominator_entry (clip v))%float.

Definition inv0_entry (v : float) : float :=
  if (v =? 0)%float then 0%float else (1 / v)%float.

(** An array with positive, negative, zero and infinite entries. *)
Definition mixed : N.ndarray :=
  N.mk_ndarray [2; 3] [2; -2; 0; -0; infinity; neg_infinity]%float.

(** An array without negative entries. *)
Definition nonnegative : N.ndarray :=
  N.mk_ndarray [2; 2] [2; 0; -0; infinity]%float.

(** * Order facts on binary64 comparisons *)

Module FloatOrder.

Ltac sf_signs :=
  repeat match goal with
         | s : bool |- _ => destruct s
         end;
  simpl; try discriminate; try reflexivity.

Lemma compare_cont_Eq (p q : positive) :
  Pos.compare_cont Eq p q = Pos.compare p q.
Proof. reflexivity. Qed.

Ltac sf_compare :=
  repeat match goal with
         | |- context [Z.compare ?a ?b] =>
             destruct (Z.compare_spec a b); subst
         | H : context [Z.compare ?a ?b] |- _ =>
             destruct (Z.compare_spec a b); subst
         | |- context [Pos.compare_cont Eq ?a ?b] =>
             rewrite (compare_cont_Eq a b);
             destruct (Pos.compare_spec a b); subst
         | H : context [Pos.compare_cont Eq ?a ?b] |- _ =>
             rewrite (compare_cont_Eq a b) in H;
             destruct (Pos.compare_spec a b); subst
         end;
  simpl in *; try discriminate; try reflexivity; try lia.

Ltac sf_order :=
  unfold SFleb, SFltb, SFeqb;
  repeat match goal with
         | f : spec_float |- _ => destruct f
         end;
  simpl; try discriminate; try reflexivity; try congruence; sf_signs;
  intros; sf_compare.

Lemma SFleb_ltb_trans a b c :
  SFleb a b = true -> SFltb b c = true -> SFltb a c = true.
Proof. sf_order. Qed.

Lemma SFltb_leb_trans a b c :
  SFltb a b = true -> SFleb b c = true -> SFltb a c = true.
Proof. sf_order. Qed.

Lemma SFleb_trans a b c :
  SFleb a b = true -> SFleb b c = true -> SFleb a c = true.
Proof. sf_order. Qed.

Lemma SFltb_not_leb a b : SFltb a b = true -> SFleb b a = false.
Proof. sf_order. Qed.

Lemma SFleb_not_ltb a b : SFleb a b = true -> SFltb b a = false.
Proof. sf_order. Qed.

Lemma SFltb_false_leb a b :
  SFeqb a a = true -> SFeqb b b = true -> SFltb a b = false -> SFleb b a = true.
Proof. sf_order. Qed.

Lemma SFltb_leb a b : SFltb a b = true -> SFleb a b = true.
Proof. sf_order. Qed.

Lemma SFleb_neg_infinity a : SFeqb a a = true -> SFleb (S754_infinity true) a = true.
Proof. sf_order. Qed.

Lemma SFltb_neg_infinity a : SFltb a (S754_infinity true) = false.
Proof. sf_order. Qed.

Lemma SFltb_nan_r a : SFltb a S754_nan = false.
Proof. sf_order. Qed.

Lemma SFltb_not_nan_r a b : SFltb a b = true -> SFeqb b b = true.
Proof. sf_order. Qed.

Lemma SFltb_not_nan_l a b : SFltb a b = true -> SFeqb a a = true.
Proof. sf_order. Qed.

Lemma SFleb_not_nan_r a b : SFleb a b = true -> SFeqb b b = true.
Proof. sf_order. Qed.

Lemma SFleb_not_nan_l a b : SFleb a b = true -> SFeqb a a = true.
Proof. sf_order. Qed.

Lemma SFeqb_zero a : SFeqb a (S754_zero false) = true -> exists s, a = S754_zero s.
Proof.
  destruct a as [s|s| |s m e]; unfold SFeqb; simpl; eauto;
    try discriminate; destruct s; discriminate.
Qed.

Open Scope float_scope.

Lemma leb_ltb_trans a b c : (a <=? b) = true -> (b <? c) = true -> (a <? c) = true.
Proof. rewrite leb_spec, !ltb_spec. apply SFleb_ltb_trans. Qed.

Lemma ltb_leb_trans a b c : (a <? b) = true -> (b <=? c) = true -> (a <? c) = true.
Proof. rewrite leb_spec, !ltb_spec. apply SFltb_leb_trans. Qed.

Lemma leb_trans a b c : (a <=? b) = true -> (b <=? c) = true -> (a <=? c) = true.
Proof. rewrite !leb_spec. apply SFleb_trans. Qed.

Lemma ltb_not_leb a b : (a <? b) = true -> (b <=? a) = false.
Proof. rewrite leb_spec, ltb_spec. apply SFltb_not_leb. Qed.

Lemma leb_not_ltb a b : (a <=? b) = true -> (b <? a) = false.
Proof. rewrite leb_spec, ltb_spec. apply SFleb_not_ltb. Qed.

(** Outside NaN the order is total. *)
Lemma ltb_false_leb a b :
  (a =? a) = true -> (b =? b) = true -> (a <? b) = false -> (b <=? a) = true.
Proof. rewrite !eqb_spec, leb_spec, ltb_spec. apply SFltb_false_leb. Qed.

Lemma ltb_leb a b : (a <? b) = true -> (a <=? b) = true.
Proof. rewrite leb_spec, ltb_spec. apply SFltb_leb. Qed.

Lemma neg_infinity_leb a : (a =? a) = true -> (- N.inf <=? a) = true.
Proof. rewrite eqb_spec, leb_spec. apply SFleb_neg_infinity. Qed.

(** Nothing is below minus infinity. *)
Lemma ltb_neg_infinity a : (a <? - N.inf) = false.
Proof. rewrite ltb_spec. apply SFltb_neg_infinity. Qed.

(** Two doubles that compare different are different. *)
Lemma eqb_false_neq a b : (a =? a) = true -> (a =? b) = false -> a <> b.
Proof. intros Ha Hab E. subst b. congruence. Qed.

Lemma ltb_nan_r a : (a <? nan) = false.
Proof. rewrite ltb_spec. apply SFltb_nan_r. Qed.

(** Zero divided by zero is NaN, whatever the signs. *)
Lemma div_zero_zero a b : is_zero a = true -> is_zero b = true -> a / b = nan.
Proof.
  unfold is_zero. rewrite !eqb_spec. intros Ha Hb.
  destruct (SFeqb_zero _ Ha) as [sa Ea], (SFeqb_zero _ Hb) as [sb Eb].
  apply Prim2SF_inj. rewrite div_spec, Ea, Eb. reflexivity.
Qed.

Lemma ltb_not_nan_r a b : (a <? b) = true -> (b =? b) = true.
Proof. rewrite ltb_spec, eqb_spec. apply SFltb_not_nan_r. Qed.

Lemma ltb_not_nan_l a b : (a <? b) = true -> (a =? a) = true.
Proof. rewrite ltb_spec, eqb_spec. apply SFltb_not_nan_l. Qed.

Lemma leb_not_nan_r a b : (a <=? b) = true -> (b =? b) = true.
Proof. rewrite leb_spec, eqb_spec. apply SFleb_not_nan_r. Qed.

Lemma leb_not_nan_l a b : (a <=? b) = true -> (a =? a) = true.
Proof. rewrite leb_spec, eqb_spec. apply SFleb_not_nan_l. Qed.

Lemma ltb_trans a b c : (a <? b) = true -> (b <? c) = true -> (a <? c) = true.
Proof. intros Hab Hbc. eapply ltb_leb_trans; [exact Hab|]. now apply ltb_leb. Qed.

Lemma ltb_nan_false_r a b : (b =? b) = false -> (a <? b) = false.
Proof.
  intros Hb. destruct (a <? b) eqn:E; [|reflexivity].
  apply ltb_not_nan_r in E. congruence.
Qed.

Lemma ltb_nan_false_l a b : (a =? a) = false -> (a <? b) = false.
Proof.
  intros Ha. destruct (a <? b) eqn:E; [|reflexivity].
  apply ltb_not_nan_l in E. congruence.
Qed.

(** numpy's order [N.less]: against a number it is [<]; against NaN every
    number comes first, and NaN does not. *)
Lemma less_cases a b :
  N.less a b = if b =? b then a <? b else a =? a.
Proof.
  unfold N.less, is_nan. destruct (b =? b) eqn:Eb; cbn [negb andb].
  - apply orb_false_r.
  - rewrite (@ltb_nan_false_r a b Eb). cbn [orb]. apply negb_involutive.
Qed.

Lemma less_ltb a b : (b =? b) = true -> N.less a b = (a <? b).
Proof. intros Hb. now rewrite less_cases, Hb. Qed.

Lemma ltb_less a b : (a <? b) = true -> N.less a b = true.
Proof. intros H. unfold N.less. now rewrite H. Qed.

Lemma less_not_nan_l a b : N.less a b = true -> (a =? a) = true.
Proof.
  rewrite less_cases. destruct (b =? b); [apply ltb_not_nan_l|trivial].
Qed.

Lemma less_nan_l a b : (a =? a) = false -> N.less a b = false.
Proof.
  intros Ha. destruct (N.less a b) eqn:E; [|reflexivity].
  apply less_not_nan_l in E. congruence.
Qed.

Lemma less_nan_r a b : (a =? a) = true -> (b =? b) = false -> N.less a b = true.
Proof. intros Ha Hb. now rewrite less_cases, Hb. Qed.

(** [N.less] is a strict order in which the elements that tie form
    classes: it is transitive, and so is its complement. *)
Lemma less_asym a b : N.less a b = true -> N.less b a = false.
Proof.
  intros H. pose proof (@less_not_nan_l _ _ H) as Ha.
  rewrite less_cases, Ha. rewrite less_cases in H.
  destruct (b =? b) eqn:Eb.
  - now apply leb_not_ltb, ltb_leb.
  - now apply ltb_nan_false_l.
Qed.

Lemma less_trans a b c :
  N.less a b = true -> N.less b c = true -> N.less a c = true.
Proof.
  intros Hab Hbc.
  pose proof (@less_not_nan_l _ _ Hab) as Ha.
  pose proof (@less_not_nan_l _ _ Hbc) as Hb.
  rewrite less_cases in *. rewrite Hb in Hab.
  destruct (c =? c); [|assumption].
  eapply ltb_trans; eassumption.
Qed.

Lemma nless_trans a b c :
  N.less b a = false -> N.less c b = false -> N.less c a = false.
Proof.
  intros Hba Hcb. rewrite less_cases in *.
  destruct (a =? a) eqn:Ea.
  - destruct (b =? b) eqn:Eb.
    + destruct (c =? c) eqn:Ec; [|now apply ltb_nan_false_l].
      apply leb_not_ltb. apply leb_trans with (b := b);
        now apply ltb_false_leb.
    + apply ltb_nan_false_l. exact Hcb.
  - destruct (b =? b) eqn:Eb; [discriminate|]. exact Hcb.
Qed.

Lemma less_nless_trans a b c :
  N.less a b = true -> N.less c b = false -> N.less a c = true.
Proof.
  intros Hab Hcb. pose proof (@less_not_nan_l _ _ Hab) as Ha.
  rewrite less_cases in *.
  destruct (b =? b) eqn:Eb.
  - destruct (c =? c) eqn:Ec; [|assumption].
    eapply ltb_leb_trans; [exact Hab|]. now apply ltb_false_leb.
  - rewrite Hcb. assumption.
Qed.

Lemma nless_less_trans a b c :
  N.less b a = false -> N.less b c = true -> N.less a c = true.
Proof.
  intros Hba Hbc. pose proof (@less_not_nan_l _ _ Hbc) as Hb.
  rewrite less_cases in Hba. rewrite Hb in Hba.
  destruct (a =? a) eqn:Ea; [|discriminate].
  rewrite less_cases in *.
  destruct (c =? c) eqn:Ec; [|assumption].
  eapply leb_ltb_trans; [|exact Hbc]. now apply ltb_false_leb.
Qed.

Lemma leb_nless a b : (a <=? b) = true -> N.less b a = false.
Proof.
  intros H. rewrite less_cases, (@leb_not_nan_l _ _ H).
  now apply leb_not_ltb.
Qed.

(** Between numbers, what does not come before is at or above. *)
Lemma nless_leb a b :
  (a =? a) = true -> (b =? b) = true -> N.less b a = false -> (a <=? b) = true.
Proof.
  intros Ha Hb H. rewrite less_cases, Ha in H. now apply ltb_false_leb.
Qed.

Lemma less_neg_infinity a : N.less a (- N.inf) = false.
Proof. rewrite less_ltb by reflexivity. apply ltb_neg_infinity. Qed.

End FloatOrder.
(** * Sequences: indexing, sortedness, argsort and searchsorted *)

Module Seq.

Lemma getitem_nat {A : Type} (a : list A) (i : nat) (v : A) :
  nth_error a i = Some v -> getitem a (Z.of_nat i) = Ok v.
Proof.
  intros H. unfold getitem.
  assert (Hlt : i < length a) by (apply nth_error_Some; congruence).
  rewrite (proj2 (Z.ltb_ge _ _)) by lia. cbv iota zeta.
  rewrite (proj2 (Z.leb_le _ _)), (proj2 (Z.ltb_lt _ _)) by lia.
  cbn [andb]. rewrite Nat2Z.id, H. reflexivity.
Qed.

Lemma getitem_nth (a : list float) (i : nat) :
  i < length a -> getitem a (Z.of_nat i) = Ok (nth i a nan).
Proof.
  intros H. apply getitem_nat. now apply nth_error_nth'.
Qed.

(** Index -1 is the last element. *)
Lemma getitem_minus_one {A : Type} (a : list A) (d : A) :
  a <> [] -> getitem a (-1) = Ok (last a d).
Proof.
  intros Hne. unfold getitem.
  assert (Hlen : 0 < length a) by (destruct a; simpl; [congruence|lia]).
  change (-1 <? 0)%Z with true. cbv iota zeta.
  rewrite (proj2 (Z.leb_le _ _)), (proj2 (Z.ltb_lt _ _)) by lia.
  cbn [andb].
  replace (Z.to_nat (-1 + Z.of_nat (length a))) with (length a - 1) by lia.
  destruct (@exists_last _ a Hne) as [a' [v Ea]]. subst a.
  rewrite last_last, length_app. cbn [length].
  replace (length a' + 1 - 1) with (length a') by lia.
  rewrite nth_error_app2, Nat.sub_diag by lia. reflexivity.
Qed.

(** Every index from -1 up to the length is in range. *)
Lemma getitem_in_range {A : Type} (a : list A) (i : Z) :
  a <> [] -> (-1 <= i < Z.of_nat (length a))%Z -> exists v, getitem a i = Ok v.
Proof.
  intros Hne Hi.
  destruct (Z.eq_dec i (-1)) as [->|Hn].
  - destruct a as [|d a]; [congruence|].
    exists (last (d :: a) d). now apply getitem_minus_one.
  - destruct (nth_error a (Z.to_nat i)) eqn:E.
    + exists a0. replace i with (Z.of_nat (Z.to_nat i)) by lia.
      now apply getitem_nat.
    + apply nth_error_None in E. lia.
Qed.

Lemma mapM_ok {A B : Type} (f : A -> result B) (g : A -> B) (l : list A) :
  (forall a, In a l -> f a = Ok (g a)) -> mapM f l = Ok (map g l).
Proof.
  induction l as [|a l IH]; intros H; simpl; [reflexivity|].
  rewrite (H a) by (now left). simpl.
  rewrite IH by (intros; apply H; now right). reflexivity.
Qed.

(** ** Sortedness *)

Definition pairwise_le (a : list float) : Prop :=
  forall i j, i < j < length a -> (nth i a nan <=? nth j a nan)%float = true.

Lemma ascendingb_cons v a :
  ascendingb (v :: a) = true ->
  ascendingb a = true /\ Forall (fun w => (v <=? w)%float = true) a.
Proof.
  revert v. induction a as [|w a IH]; intros v H.
  - split; [reflexivity|constructor].
  - change (((v <=? w)%float && ascendingb (w :: a))%bool = true) in H.
    apply andb_true_iff in H. destruct H as [Hvw Hs].
    split; [assumption|].
    constructor; [assumption|].
    destruct (IH w Hs) as [_ Hall].
    eapply Forall_impl; [|exact Hall].
    intros u Hu. simpl in Hu. eapply FloatOrder.leb_trans; eassumption.
Qed.

Lemma ascendingb_pairwise a : ascendingb a = true -> pairwise_le a.
Proof.
  induction a as [|v a IH]; intros H i j Hij; simpl in Hij; [lia|].
  destruct (ascendingb_cons _ _ H) as [Hs Hall].
  destruct j as [|j]; [lia|].
  destruct i as [|i]; simpl.
  - rewrite Forall_forall in Hall. apply Hall. apply nth_In. lia.
  - apply IH; [assumption|lia].
Qed.

(** Sortedness in numpy's order. *)
Definition pairwise_sorted (a : list float) : Prop :=
  forall i j, i < j < length a -> N.less (nth j a nan) (nth i a nan) = false.

Lemma sortedb_cons v a :
  sortedb (v :: a) = true ->
  sortedb a = true /\ Forall (fun w => N.less w v = false) a.
Proof.
  revert v. induction a as [|w a IH]; intros v H.
  - split; [reflexivity|constructor].
  - change ((negb (N.less w v) && sortedb (w :: a))%bool = true) in H.
    apply andb_true_iff in H. destruct H as [Hvw Hs].
    apply negb_true_iff in Hvw.
    split; [assumption|].
    constructor; [assumption|].
    destruct (IH w Hs) as [_ Hall].
    eapply Forall_impl; [|exact Hall].
    intros u Hu. simpl in Hu. eapply FloatOrder.nless_trans; eassumption.
Qed.

Lemma sortedb_pairwise a : sortedb a = true -> pairwise_sorted a.
Proof.
  induction a as [|v a IH]; intros H i j Hij; simpl in Hij; [lia|].
  destruct (sortedb_cons _ _ H) as [Hs Hall].
  destruct j as [|j]; [lia|].
  destruct i as [|i]; simpl.
  - rewrite Forall_forall in Hall. apply Hall. apply nth_In. lia.
  - apply IH; [assumption|lia].
Qed.

(** Ascending data is sorted; sorted data without NaN is ascending. *)
Lemma ascendingb_sortedb a : ascendingb a = true -> sortedb a = true.
Proof.
  induction a as [|v a IH]; intros H; [reflexivity|].
  destruct a as [|w a]; [reflexivity|].
  change (((v <=? w)%float && ascendingb (w :: a))%bool = true) in H.
  apply andb_true_iff in H. destruct H as [Hvw Hs].
  change ((negb (N.less w v) && sortedb (w :: a))%bool = true).
  rewrite (FloatOrder.leb_nless Hvw). now apply IH.
Qed.

Lemma sortedb_ascendingb a :
  nan_free a = true -> sortedb a = true -> ascendingb a = true.
Proof.
  unfold nan_free. induction a as [|v a IH]; intros Hnan H; [reflexivity|].
  destruct a as [|w a]; [reflexivity|].
  change ((negb (N.less w v) && sortedb (w :: a))%bool = true) in H.
  apply andb_true_iff in H. destruct H as [Hvw Hs].
  apply negb_true_iff in Hvw.
  cbn [forallb] in Hnan. apply andb_true_iff in Hnan. destruct Hnan as [Hv Hnan].
  change (((v <=? w)%float && ascendingb (w :: a))%bool = true).
  rewrite IH by assumption. rewrite andb_true_r.
  cbn [forallb] in Hnan. apply andb_true_iff in Hnan. destruct Hnan as [Hw _].
  now apply FloatOrder.nless_leb.
Qed.

Lemma ascendingb_pairwise_sorted a : ascendingb a = true -> pairwise_sorted a.
Proof. intros H. now apply sortedb_pairwise, ascendingb_sortedb. Qed.

(** ** searchsorted *)

Lemma binsearch_left_bounds fuel a key lo hi :
  lo <= hi -> lo <= scipy.binsearch_left fuel a key lo hi <= hi.
Proof.
  revert lo hi. induction fuel as [|fuel IH]; intros lo hi Hle; cbn [scipy.binsearch_left]; [lia|].
  destruct (Nat.ltb_spec lo hi); [|lia].
  assert (Hmid : lo <= lo + (hi - lo) / 2 < hi).
  { split; [lia|]. assert ((hi - lo) / 2 < hi - lo) by (apply Nat.div_lt; lia). lia. }
  destruct (N.less (nth _ a nan) key).
  - specialize (IH (S (lo + (hi - lo) / 2)) hi). lia.
  - specialize (IH lo (lo + (hi - lo) / 2)). lia.
Qed.

Lemma searchsorted_le_length a v : scipy.searchsorted a v <= length a.
Proof.
  unfold scipy.searchsorted.
  pose proof (binsearch_left_bounds (length a) a v (lo := 0) (hi := length a)).
  lia.
Qed.

(** The search needs less than sorted data: when the elements that come
    before the key are exactly the first [r], it returns [r], from whatever
    bounds that enclose [r]. *)
Lemma binsearch_left_partition a key r :
  (forall i, i < r -> N.less (nth i a nan) key = true) ->
  (forall i, r <= i < length a -> N.less (nth i a nan) key = false) ->
  forall fuel lo hi,
    hi - lo <= fuel -> lo <= r <= hi -> hi <= length a ->
    scipy.binsearch_left fuel a key lo hi = r.
Proof.
  intros Hbelow Habove.
  induction fuel as [|fuel IH]; intros lo hi Hf Hr Hhi;
    cbn [scipy.binsearch_left]; [lia|].
  destruct (Nat.ltb_spec lo hi); [|lia].
  cbv zeta. set (mid := lo + (hi - lo) / 2).
  assert (Hmid : lo <= mid < hi).
  { subst mid. split; [lia|].
    assert ((hi - lo) / 2 < hi - lo) by (apply Nat.div_lt; lia). lia. }
  destruct (N.less (nth mid a nan) key) eqn:E.
  - apply IH; [lia| |lia]. split; [|lia].
    destruct (Nat.le_gt_cases r mid) as [Hle|Hgt]; [|lia].
    rewrite Habove in E by lia. discriminate.
  - apply IH; [lia| |lia]. split; [lia|].
    destruct (Nat.le_gt_cases r mid) as [Hle|Hgt]; [lia|].
    rewrite Hbelow in E by lia. discriminate.
Qed.

Lemma searchsorted_partition a key r :
  r <= length a ->
  (forall i, i < r -> N.less (nth i a nan) key = true) ->
  (forall i, r <= i < length a -> N.less (nth i a nan) key = false) ->
  scipy.searchsorted a key = r.
Proof.
  intros Hr Hbelow Habove. unfold scipy.searchsorted.
  apply binsearch_left_partition; auto; lia.
Qed.

(** On sorted data the elements that come before a key are a leading
    segment. *)
Lemma sorted_partition a key :
  pairwise_sorted a ->
  exists r,
    r <= length a /\
    (forall i, i < r -> N.less (nth i a nan) key = true) /\
    (forall i, r <= i < length a -> N.less (nth i a nan) key = false).
Proof.
  intros Hs.
  assert (H : forall n, n <= length a ->
            exists r, r <= n /\
              (forall i, i < r -> N.less (nth i a nan) key = true) /\
              (forall i, r <= i < n -> N.less (nth i a nan) key = false)).
  { induction n as [|n IH]; intros Hn.
    - exists 0. split; [lia|]. split; intros; lia.
    - destruct IH as [r [Hr [Hb Ha]]]; [lia|].
      destruct (N.less (nth n a nan) key) eqn:E.
      + exists (S n). split; [lia|]. split; [|intros; lia].
        intros i Hi. destruct (Nat.eq_dec i n) as [->|Hne]; [assumption|].
        eapply FloatOrder.nless_less_trans; [|exact E]. apply Hs. lia.
      + exists r. split; [lia|]. split; [assumption|].
        intros i Hi. destruct (Nat.eq_dec i n) as [->|Hne]; [assumption|].
        apply Ha. lia. }
  destruct (H (length a) (le_n _)) as [r [Hr [Hb Ha]]]. exists r. auto.
Qed.

(** On sorted data the search ends at the boundary between the elements
    that come before the key and the others. *)
Lemma searchsorted_sorted a v :
  pairwise_sorted a ->
  (forall i, i < scipy.searchsorted a v -> N.less (nth i a nan) v = true) /\
  (forall i, scipy.searchsorted a v <= i < length a ->
             N.less (nth i a nan) v = false).
Proof.
  intros Hs. destruct (@sorted_partition a v Hs) as [r [Hr [Hb Ha]]].
  rewrite (@searchsorted_partition a v r Hr Hb Ha). auto.
Qed.

(** The position of a key in a step: after element [k], not after element
    [k+1]. *)
Lemma searchsorted_step a v k :
  pairwise_sorted a -> S k < length a ->
  N.less (nth k a nan) v = true ->
  N.less (nth (S k) a nan) v = false ->
  scipy.searchsorted a v = S k.
Proof.
  intros Hs Hk Hlt Hle.
  destruct (@searchsorted_sorted a v Hs) as [Hbelow Habove].
  pose proof (searchsorted_le_length a v) as Hr.
  destruct (Nat.lt_trichotomy (scipy.searchsorted a v) (S k)) as [H|[H|H]].
  - rewrite (Habove k) in Hlt by lia. discriminate.
  - assumption.
  - rewrite (Hbelow (S k)) in Hle by lia. discriminate.
Qed.

(** A key that no element comes before is inserted at position 0, sorted
    data or not. *)
Lemma searchsorted_none_below a key :
  (forall i, N.less (nth i a nan) key = false) -> scipy.searchsorted a key = 0.
Proof.
  intros H. apply searchsorted_partition; [lia|intros; lia|auto].
Qed.

Lemma searchsorted_neg_infinity a : scipy.searchsorted a (- N.inf)%float = 0.
Proof.
  apply searchsorted_none_below. intros i. apply FloatOrder.less_neg_infinity.
Qed.

(** A key that every element comes before is inserted at the end, sorted
    data or not. *)
Lemma searchsorted_all_below a key :
  (forall i, i < length a -> N.less (nth i a nan) key = true) ->
  scipy.searchsorted a key = length a.
Proof.
  intros H. apply searchsorted_partition; [lia|auto|intros; lia].
Qed.

End Seq.

(** * Sorting: the contracts, and sorts that meet them *)

Module Sorting.

(** With every index in range, take raises nothing. *)
Lemma take_ok a idx :
  (forall i, In i idx -> i < length a) ->
  N.take a idx = Ok (map (fun i => nth i a nan) idx).
Proof.
  intros H. unfold N.take. apply Seq.mapM_ok.
  intros i Hi. apply Seq.getitem_nth. now apply H.
Qed.

Lemma map_nth_seq a : map (fun i => nth i a nan) (seq 0 (length a)) = a.
Proof.
  apply nth_ext with (d := nan) (d' := nan).
  - now rewrite length_map, length_seq.
  - intros k Hk. rewrite length_map, length_seq in Hk.
    rewrite (nth_indep _ nan (nth 0 a nan)) by (now rewrite length_map, length_seq).
    rewrite (map_nth (fun i => nth i a nan) (seq 0 (length a)) 0 k).
    now rewrite seq_nth.
Qed.

(** ** What follows from the contract of argsort *)

Section Argsort.

Variable N_argsort : list float -> list nat.
Hypothesis argsort_ok : argsort_contract N_argsort.

Lemma argsort_perm a : Permutation (N_argsort a) (seq 0 (length a)).
Proof. apply argsort_ok. Qed.

Lemma argsort_sorted a :
  sortedb (map (fun i => nth i a nan) (N_argsort a)) = true.
Proof. apply argsort_ok. Qed.

Lemma argsort_length a : length (N_argsort a) = length a.
Proof.
  rewrite (Permutation_length (argsort_perm a)). apply length_seq.
Qed.

Lemma argsort_in_range a i : In i (N_argsort a) -> i < length a.
Proof.
  intros H. apply (Permutation_in _ (argsort_perm a)) in H.
  apply in_seq in H. lia.
Qed.

Lemma argsort_NoDup a : NoDup (N_argsort a).
Proof.
  apply (Permutation_NoDup (Permutation_sym (argsort_perm a))), seq_NoDup.
Qed.

(** The elements taken in the order of argsort are the elements. *)
Lemma argsort_values_perm a :
  Permutation (map (fun i => nth i a nan) (N_argsort a)) a.
Proof.
  rewrite (Permutation_map _ (argsort_perm a)). now rewrite map_nth_seq.
Qed.

Lemma argsort_values_nan_free a :
  nan_free a = true ->
  nan_free (map (fun i => nth i a nan) (N_argsort a)) = true.
Proof.
  unfold nan_free. rewrite !forallb_forall. intros H v Hv.
  apply H. now apply (Permutation_in _ (argsort_values_perm a)).
Qed.

(** Without NaN they ascend. *)
Lemma argsort_ascending a :
  nan_free a = true ->
  ascendingb (map (fun i => nth i a nan) (N_argsort a)) = true.
Proof.
  intros Hnan. apply Seq.sortedb_ascendingb.
  - now apply argsort_values_nan_free.
  - apply argsort_sorted.
Qed.

End Argsort.

Section Sort.

Variable N_sort : list float -> list float.
Hypothesis sort_ok : sort_contract N_sort.

Lemma sort_perm a : Permutation (N_sort a) a.
Proof. apply sort_ok. Qed.

Lemma sort_sorted a : sortedb (N_sort a) = true.
Proof. apply sort_ok. Qed.

Lemma sort_length a : length (N_sort a) = length a.
Proof. apply Permutation_length, sort_perm. Qed.



End Sort.

(** ** The insertion sorts meet the contracts *)

Lemma insert_index_perm a i l : Permutation (insert_index a i l) (i :: l).
Proof.
  induction l as [|j l IH]; simpl; [reflexivity|].
  destruct (N.less (nth j a nan) (nth i a nan)); [|reflexivity].
  rewrite IH. apply perm_swap.
Qed.

Lemma argsort_from_perm a l : Permutation (argsort_from l a) l.
Proof.
  unfold argsort_from. induction l as [|i l IH]; simpl; [reflexivity|].
  rewrite insert_index_perm. now constructor.
Qed.

Lemma insert_index_sorted a i l :
  StronglySorted (may_precede a) l ->
  StronglySorted (may_precede a) (insert_index a i l).
Proof.
  induction l as [|j l IH]; intros Hs.
  - cbn [insert_index]. constructor; constructor.
  - apply StronglySorted_inv in Hs. destruct Hs as [Hs Hall].
    cbn [insert_index].
    destruct (N.less (nth j a nan) (nth i a nan)) eqn:E.
    + constructor; [now apply IH|].
      apply (Permutation_Forall (Permutation_sym (insert_index_perm a i l))).
      constructor; [|assumption]. now apply FloatOrder.less_asym.
    + constructor; [now constructor|].
      constructor; [assumption|].
      rewrite Forall_forall in *. intros k Hk.
      eapply FloatOrder.nless_trans; [exact E|]. now apply (Hall k).
Qed.

Lemma argsort_from_sorted a l : StronglySorted (may_precede a) (argsort_from l a).
Proof.
  unfold argsort_from. induction l as [|i l IH]; [constructor|].
  cbn [fold_right]. now apply insert_index_sorted.
Qed.

Lemma strongly_sorted_sortedb a l :
  StronglySorted (may_precede a) l ->
  sortedb (map (fun i => nth i a nan) l) = true.
Proof.
  induction l as [|j l IH]; intros Hs; [reflexivity|].
  apply StronglySorted_inv in Hs. destruct Hs as [Hs Hall].
  destruct l as [|k l]; [reflexivity|].
  change ((negb (N.less (nth k a nan) (nth j a nan))
           && sortedb (map (fun i => nth i a nan) (k :: l)))%bool = true).
  inversion Hall as [|? ? Hjk _]; subst. unfold may_precede in Hjk.
  rewrite Hjk. cbn [negb andb]. now apply IH.
Qed.

(** Insertion in any order of the positions is a sort. *)
Lemma argsort_from_contract (positions : nat -> list nat) :
  (forall n, Permutation (positions n) (seq 0 n)) ->
  argsort_contract (fun a => argsort_from (positions (length a)) a).
Proof.
  intros Hp a. split.
  - rewrite argsort_from_perm. apply Hp.
  - apply strongly_sorted_sortedb, argsort_from_sorted.
Qed.

Lemma argsort_stable_contract : argsort_contract argsort_stable.
Proof. apply (argsort_from_contract (fun n => seq 0 n)). reflexivity. Qed.

Lemma rotated_perm n : Permutation (rotated n) (seq 0 n).
Proof.
  unfold rotated. cbv zeta.
  replace (seq 0 n) with (seq 0 (Nat.min 5 n) ++ seq (Nat.min 5 n) (n - Nat.min 5 n)).
  - apply Permutation_app_comm.
  - rewrite <- seq_app. f_equal. lia.
Qed.

Lemma argsort_rotated_contract : argsort_contract argsort_rotated.
Proof. apply (argsort_from_contract rotated). apply rotated_perm. Qed.

Lemma sort_stable_contract : sort_contract sort_stable.
Proof.
  intros a. unfold sort_stable. split.
  - apply (argsort_values_perm argsort_stable_contract).
  - apply (argsort_sorted argsort_stable_contract).
Qed.

(** The stable sort leaves sorted data alone. *)
Lemma argsort_from_seq a len :
  forall s,
    (forall i, s <= i -> S i < s + len ->
               N.less (nth (S i) a nan) (nth i a nan) = false) ->
    argsort_from (seq s len) a = seq s len.
Proof.
  unfold argsort_from.
  induction len as [|len IH]; intros s H; [reflexivity|].
  cbn [seq fold_right]. rewrite IH by (intros i Hi1 Hi2; apply H; lia).
  destruct len as [|len]; [reflexivity|].
  cbn [seq insert_index]. rewrite H by lia. reflexivity.
Qed.

Lemma argsort_stable_sorted a :
  sortedb a = true -> argsort_stable a = seq 0 (length a).
Proof.
  intros H. apply argsort_from_seq. intros i _ Hi.
  apply (Seq.sortedb_pairwise _ H). lia.
Qed.

(** ** Data without ties has one sorted order *)

Lemma sorted_unique {A : Type} (R : A -> A -> Prop) :
  (forall u v, R u v -> R v u -> False) ->
  forall l1 l2,
    StronglySorted R l1 -> StronglySorted R l2 -> Permutation l1 l2 -> l1 = l2.
Proof.
  intros Hasym. induction l1 as [|u l1 IH]; intros l2 H1 H2 Hp.
  - apply Permutation_nil in Hp. now subst.
  - destruct l2 as [|v l2].
    + apply Permutation_sym, Permutation_nil in Hp. discriminate.
    + apply StronglySorted_inv in H1. destruct H1 as [H1 Hu].
      apply StronglySorted_inv in H2. destruct H2 as [H2 Hv].
      rewrite Forall_forall in Hu, Hv.
      assert (E : u = v).
      { assert (Hin1 : In u (v :: l2))
          by (apply (Permutation_in _ Hp); now left).
        assert (Hin2 : In v (u :: l1))
          by (apply (Permutation_in _ (Permutation_sym Hp)); now left).
        destruct Hin1 as [E|Hin1]; [now symmetry|].
        destruct Hin2 as [E|Hin2]; [assumption|].
        exfalso. eapply Hasym; [apply Hu|apply Hv]; eassumption. }
      subst v. f_equal. apply IH; try assumption.
      now apply Permutation_cons_inv with (a := u).
Qed.

Lemma less_asym_False u v : N.less u v = true -> N.less v u = true -> False.
Proof.
  intros H1 H2. rewrite (@FloatOrder.less_asym u v H1) in H2. discriminate.
Qed.

Lemma distinctb_perm a b :
  Permutation a b -> distinctb a = true -> distinctb b = true.
Proof.
  induction 1 as [|v a b Hp IH|v w a|a b c H1 IH1 H2 IH2]; intros H.
  - reflexivity.
  - cbn [distinctb] in *. apply andb_true_iff in H. destruct H as [Hv Hd].
    rewrite IH by assumption. rewrite andb_true_r.
    rewrite forallb_forall in *. intros u Hu. apply Hv.
    now apply (Permutation_in _ (Permutation_sym Hp)).
  - cbn [distinctb forallb] in *.
    apply andb_true_iff in H. destruct H as [H1 H2].
    apply andb_true_iff in H1. destruct H1 as [Hxy Hx].
    apply andb_true_iff in H2. destruct H2 as [Hy Hd].
    rewrite orb_comm in Hxy. now rewrite Hxy, Hx, Hy, Hd.
  - auto.
Qed.

(** Sorted data without ties is in strict order. *)
Lemma distinct_sorted_strict l :
  distinctb l = true -> sortedb l = true ->
  StronglySorted (fun u v => N.less u v = true) l.
Proof.
  induction l as [|v l IH]; intros Hd Hs; [constructor|].
  destruct (Seq.sortedb_cons _ _ Hs) as [Hs' Hall].
  cbn [distinctb] in Hd. apply andb_true_iff in Hd. destruct Hd as [Hv Hd].
  constructor; [now apply IH|].
  rewrite Forall_forall in *. rewrite forallb_forall in Hv.
  intros w Hw. specialize (Hv w Hw). rewrite (Hall w Hw) in Hv.
  now rewrite orb_false_r in Hv.
Qed.

(** Two sorts return the same sequence on data without ties. *)
Lemma sort_determined (f g : list float -> list float) a :
  sort_contract f -> sort_contract g -> distinctb a = true -> f a = g a.
Proof.
  intros Hf Hg Hd.
  apply (sorted_unique less_asym_False).
  - apply distinct_sorted_strict; [|apply (sort_sorted Hf)].
    apply (distinctb_perm (Permutation_sym (sort_perm Hf a)) Hd).
  - apply distinct_sorted_strict; [|apply (sort_sorted Hg)].
    apply (distinctb_perm (Permutation_sym (sort_perm Hg a)) Hd).
  - rewrite (sort_perm Hf a). symmetry. apply (sort_perm Hg a).
Qed.

Lemma distinctb_nth a :
  distinctb a = true ->
  forall i j, i < length a -> j < length a -> i <> j ->
    N.less (nth i a nan) (nth j a nan) = true \/
    N.less (nth j a nan) (nth i a nan) = true.
Proof.
  induction a as [|v a IH]; intros Hd i j Hi Hj Hne; [simpl in Hi; lia|].
  cbn [distinctb] in Hd. apply andb_true_iff in Hd. destruct Hd as [Hv Hd].
  rewrite forallb_forall in Hv. cbn [length] in Hi, Hj.
  destruct i as [|i], j as [|j]; cbn [nth].
  - congruence.
  - apply orb_true_iff. apply Hv. apply nth_In. lia.
  - apply or_comm. apply orb_true_iff. apply Hv. apply nth_In. lia.
  - apply IH; auto; lia.
Qed.

(** And so do two argsorts: then the order of the positions is the strict
    order of their elements. *)
Lemma argsort_strict (f : list float -> list nat) a :
  argsort_contract f -> distinctb a = true ->
  StronglySorted (fun i j => N.less (nth i a nan) (nth j a nan) = true) (f a).
Proof.
  intros Hf Hd.
  pose proof (argsort_sorted Hf a) as Hs.
  pose proof (argsort_NoDup Hf a) as Hn.
  pose proof (argsort_in_range Hf a) as Hr.
  induction (f a) as [|i l IH]; [constructor|].
  cbn [map] in Hs. destruct (Seq.sortedb_cons _ _ Hs) as [Hs' Hall].
  inversion Hn as [|? ? Hni Hn']; subst.
  constructor.
  - apply IH; auto. intros k Hk. apply Hr. now right.
  - rewrite Forall_forall in *. intros j Hj.
    assert (Hne : i <> j) by (intros ->; contradiction).
    destruct (@distinctb_nth a Hd i j) as [H|H]; auto.
    + apply Hr. now left.
    + apply Hr. now right.
    + rewrite Hall in H; [discriminate|]. apply in_map_iff. eauto.
Qed.

Lemma argsort_determined (f g : list float -> list nat) a :
  argsort_contract f -> argsort_contract g -> distinctb a = true -> f a = g a.
Proof.
  intros Hf Hg Hd.
  apply (sorted_unique (R := fun i j => N.less (nth i a nan) (nth j a nan) = true)).
  - intros i j. apply less_asym_False.
  - now apply argsort_strict.
  - now apply argsort_strict.
  - rewrite (argsort_perm Hf a). symmetry. apply (argsort_perm Hg a).
Qed.

(** Strictly ascending data has no ties and is sorted. *)
Lemma strictly_ascendingb_cons v a :
  strictly_ascendingb (v :: a) = true ->
  strictly_ascendingb a = true /\ Forall (fun w => (v <? w)%float = true) a.
Proof.
  revert v. induction a as [|w a IH]; intros v H.
  - split; [reflexivity|constructor].
  - change (((v <? w)%float && strictly_ascendingb (w :: a))%bool = true) in H.
    apply andb_true_iff in H. destruct H as [Hvw Hs].
    split; [assumption|].
    constructor; [assumption|].
    destruct (IH w Hs) as [_ Hall].
    eapply Forall_impl; [|exact Hall].
    intros u Hu. simpl in Hu. eapply FloatOrder.ltb_trans; eassumption.
Qed.

Lemma strictly_ascendingb_distinctb a :
  strictly_ascendingb a = true -> distinctb a = true.
Proof.
  induction a as [|v a IH]; intros H; [reflexivity|].
  destruct (strictly_ascendingb_cons _ _ H) as [Hs Hall].
  cbn [distinctb]. rewrite IH by assumption. rewrite andb_true_r.
  apply forallb_forall. intros w Hw. rewrite Forall_forall in Hall.
  now rewrite (@FloatOrder.ltb_less v w (Hall w Hw)).
Qed.

Lemma strictly_ascendingb_ascendingb a :
  strictly_ascendingb a = true -> ascendingb a = true.
Proof.
  induction a as [|v a IH]; intros H; [reflexivity|].
  destruct a as [|w a]; [reflexivity|].
  change (((v <? w)%float && strictly_ascendingb (w :: a))%bool = true) in H.
  apply andb_true_iff in H. destruct H as [Hvw Hs].
  change (((v <=? w)%float && ascendingb (w :: a))%bool = true).
  rewrite (FloatOrder.ltb_leb Hvw). now apply IH.
Qed.

(** On strictly ascending data every argsort is the identity. *)
Lemma argsort_strictly_ascending (f : list float -> list nat) a :
  argsort_contract f -> strictly_ascendingb a = true ->
  f a = seq 0 (length a).
Proof.
  intros Hf Hs.
  rewrite (@argsort_determined f argsort_stable a Hf argsort_stable_contract)
    by (now apply strictly_ascendingb_distinctb).
  apply argsort_stable_sorted.
  now apply Seq.ascendingb_sortedb, strictly_ascendingb_ascendingb.
Qed.

End Sorting.

(** * StepFunction *)

Module StepFunctionFacts.

Import StepFunction.

Lemma wf_1d_length a : N.wf a -> N.ndim a = 1 -> N.shape a = [length (N.data a)].
Proof.
  unfold N.wf, N.size, N.ndim. intros Hwf Hd.
  destruct (N.shape a) as [|m [|? ?]]; try discriminate.
  simpl in Hwf. f_equal. lia.
Qed.

Lemma shape_eqb_true s1 s2 : N.shape_eqb s1 s2 = true <-> s1 = s2.
Proof.
  unfold N.shape_eqb. destruct (list_eq_dec Nat.eq_dec s1 s2); split; intros; congruence.
Qed.

Lemma shape_eqb_false s1 s2 : N.shape_eqb s1 s2 = false <-> s1 <> s2.
Proof.
  unfold N.shape_eqb. destruct (list_eq_dec Nat.eq_dec s1 s2); split; intros; congruence.
Qed.

(** The index arithmetic of [__call__]. *)
Lemma call_index f t k :
  scipy.searchsorted (StepFunction.x f) t = S k ->
  k < length (StepFunction.y f) ->
  __call__ f t = Ok (nth k (StepFunction.y f) nan).
Proof.
  intros Hr Hk. unfold __call__. rewrite Hr.
  replace (Z.of_nat (S k) - 1)%Z with (Z.of_nat k) by lia.
  now apply Seq.getitem_nth.
Qed.

(** The last index selects the last element. *)
Lemma getitem_last {A : Type} (a : list A) (d : A) :
  a <> [] -> getitem a (Z.of_nat (length a) - 1) = Ok (last a d).
Proof.
  intros Hne. destruct (@exists_last _ a Hne) as [a' [v Ea]]. subst a.
  rewrite last_last, length_app. cbn [length].
  replace (Z.of_nat (length a' + 1) - 1)%Z with (Z.of_nat (length a')) by lia.
  apply Seq.getitem_nat. rewrite nth_error_app2, Nat.sub_diag by lia.
  reflexivity.
Qed.

Lemma combine_map_map {A B C : Type} (g : A -> B) (h : A -> C) (l : list A) :
  combine (map g l) (map h l) = map (fun i => (g i, h i)) l.
Proof.
  induction l as [|a l IH]; [reflexivity|]. cbn [map combine]. now rewrite IH.
Qed.

Lemma combine_nth_seq (a b : list float) :
  length b = length a ->
  map (fun i => (nth i a nan, nth i b nan)) (seq 0 (length a)) = combine a b.
Proof.
  intros Hlen. apply nth_ext with (d := (nan, nan)) (d' := (nan, nan)).
  - rewrite length_map, length_seq, length_combine. lia.
  - intros k Hk. rewrite length_map, length_seq in Hk.
    rewrite (nth_indep _ (nan, nan) ((fun i => (nth i a nan, nth i b nan)) 0))
      by (now rewrite length_map, length_seq).
    rewrite (map_nth (fun i => (nth i a nan, nth i b nan))), seq_nth by lia.
    rewrite combine_nth by lia. reflexivity.
Qed.

Lemma nan_free_cons_neg_infinity a :
  nan_free a = true -> nan_free ((- N.inf)%float :: a) = true.
Proof. unfold nan_free. intros H. cbn [forallb]. now rewrite H. Qed.

(** The breakpoints are put together from minus infinity and the data. *)
Lemma hstack_cons (v : float) (a : list float) : N.hstack [[v]; a] = v :: a.
Proof. unfold N.hstack. cbn [concat app]. now rewrite app_nil_r. Qed.

(** Two argsorts build the same object from breakpoints without ties. *)
Lemma init_determined (f g : list float -> list nat) x0 y0 ival sorted :
  argsort_contract f -> argsort_contract g ->
  distinctb ((- N.inf)%float :: N.data x0) = true ->
  __init__ f x0 y0 ival sorted = __init__ g x0 y0 ival sorted.
Proof.
  intros Hf Hg Hd. unfold __init__, N.asarray. rewrite !hstack_cons.
  now rewrite (@Sorting.argsort_determined f g _ Hf Hg Hd).
Qed.

Section Constructor.

Variable N_argsort : list float -> list nat.
Hypothesis argsort_ok : argsort_contract N_argsort.

(** On two well-formed one-dimensional arrays of one shape the constructor
    raises nothing and stores the sequences [stored] describes. *)
Lemma init_valid x y ival sorted :
  N.wf x -> N.wf y -> N.shape x = N.shape y -> N.ndim x = 1 ->
  __init__ N_argsort x y ival sorted
  = Ok (stored N_argsort (N.data x) (N.data y) ival sorted).
Proof.
  intros Hwx Hwy Hsh Hd.
  assert (Hlx := wf_1d_length Hwx Hd).
  assert (Hdy : N.ndim y = 1) by (unfold N.ndim in *; congruence).
  assert (Hly := wf_1d_length Hwy Hdy).
  assert (Hlen : length (N.data y) = length (N.data x)) by congruence.
  unfold __init__, N.asarray, stored.
  rewrite (proj2 (shape_eqb_true _ _) Hsh). cbn [negb].
  unfold N.ndim in Hd. rewrite Hd. cbn [Nat.eqb negb].
  rewrite !hstack_cons.
  destruct sorted; cbn [negb]; [reflexivity|].
  rewrite !Sorting.take_ok.
  - cbn [bind]. now rewrite length_map.
  - intros i Hi. apply (Sorting.argsort_in_range argsort_ok) in Hi.
    cbn [length] in *. lia.
  - intros i Hi. now apply (Sorting.argsort_in_range argsort_ok) in Hi.
Qed.

Lemma stored_lengths x y ival sorted :
  length y = length x ->
  length (StepFunction.x (stored N_argsort x y ival sorted)) = S (length x) /\
  length (StepFunction.y (stored N_argsort x y ival sorted)) = S (length x) /\
  StepFunction.n (stored N_argsort x y ival sorted) = S (length x).
Proof.
  intros Hlen. unfold stored.
  destruct sorted; cbn [StepFunction.x StepFunction.y StepFunction.n].
  - cbn [length]. lia.
  - rewrite !length_map, (Sorting.argsort_length argsort_ok). cbn [length]. lia.
Qed.

(** What the constructor returns is what [stored] describes, and its input
    sequences have one length. *)
Lemma init_ok_inv x0 y0 ival sorted f :
  N.wf x0 -> N.wf y0 -> __init__ N_argsort x0 y0 ival sorted = Ok f ->
  f = stored N_argsort (N.data x0) (N.data y0) ival sorted /\
  length (N.data y0) = length (N.data x0).
Proof.
  intros Hwx Hwy H.
  destruct (N.shape_eqb (N.shape x0) (N.shape y0)) eqn:Es.
  2:{ unfold __init__, N.asarray in H. rewrite Es in H. discriminate. }
  destruct (length (N.shape x0) =? 1) eqn:Ed.
  2:{ unfold __init__, N.asarray in H. rewrite Es, Ed in H. discriminate. }
  apply shape_eqb_true in Es. apply Nat.eqb_eq in Ed.
  rewrite (init_valid ival sorted Hwx Hwy Es Ed) in H.
  split; [congruence|].
  assert (Hdy : N.ndim y0 = 1) by (unfold N.ndim in *; congruence).
  pose proof (wf_1d_length Hwx Ed).
  pose proof (wf_1d_length Hwy Hdy). congruence.
Qed.

(** Whatever the constructor returns has as many values as breakpoints,
    and at least one. *)
Lemma init_lengths x y ival sorted f :
  N.wf x -> N.wf y -> __init__ N_argsort x y ival sorted = Ok f ->
  length (StepFunction.y f) = length (StepFunction.x f) /\
  0 < length (StepFunction.x f).
Proof.
  intros Hwx Hwy H.
  destruct (init_ok_inv _ _ Hwx Hwy H) as [E Hlen]. subst f.
  destruct (@stored_lengths _ _ ival sorted Hlen) as [Hx [Hy _]]. lia.
Qed.

(** The stored breakpoints are minus infinity and the input breakpoints, in
    some order. *)
Lemma stored_x_perm x0 y0 ival sorted :
  Permutation (StepFunction.x (stored N_argsort x0 y0 ival sorted))
              ((- N.inf)%float :: x0).
Proof.
  unfold stored. destruct sorted; cbn [StepFunction.x]; [reflexivity|].
  apply (Sorting.argsort_values_perm argsort_ok).
Qed.

(** The stored pairs are the synthetic pair and the input pairs, in some
    order. *)
Lemma stored_pairs x0 y0 ival sorted :
  length y0 = length x0 ->
  Permutation (combine (StepFunction.x (stored N_argsort x0 y0 ival sorted))
                       (StepFunction.y (stored N_argsort x0 y0 ival sorted)))
              (((- N.inf)%float, ival) :: combine x0 y0).
Proof.
  intros Hlen. unfold stored. destruct sorted; cbn [StepFunction.x StepFunction.y].
  - reflexivity.
  - rewrite combine_map_map.
    change (((- N.inf)%float, ival) :: combine x0 y0)
      with (combine ((- N.inf)%float :: x0) (ival :: y0)).
    rewrite <- (combine_nth_seq ((- N.inf)%float :: x0) (ival :: y0))
      by (cbn [length]; lia).
    apply Permutation_map, (Sorting.argsort_perm argsort_ok).
Qed.

(** The sorting path stores the breakpoints in sorted order. *)
Lemma stored_sorted x0 y0 ival :
  sortedb (StepFunction.x (stored N_argsort x0 y0 ival false)) = true.
Proof.
  unfold stored. cbn [StepFunction.x]. apply (Sorting.argsort_sorted argsort_ok).
Qed.

(** The stored breakpoints ascend when the input has no NaN and either is
    sorted by the constructor or was ascending already. *)
Lemma stored_ascending x0 y0 ival sorted :
  nan_free x0 = true ->
  (sorted = true -> ascendingb x0 = true) ->
  ascendingb (StepFunction.x (stored N_argsort x0 y0 ival sorted)) = true.
Proof.
  intros Hnan Hs. unfold stored. destruct sorted; cbn [StepFunction.x].
  - specialize (Hs eq_refl). destruct x0 as [|v x0]; [reflexivity|].
    change (((- N.inf <=? v)%float && ascendingb (v :: x0))%bool = true).
    rewrite Hs, andb_true_r. apply FloatOrder.neg_infinity_leb.
    unfold nan_free in Hnan. cbn [forallb] in Hnan.
    now apply andb_true_iff in Hnan.
  - apply (Sorting.argsort_ascending argsort_ok).
    now apply nan_free_cons_neg_infinity.
Qed.

(** On sorted breakpoints without ties the sorting constructor stores what
    the trusting one stores. *)
Lemma stored_presorted x0 y0 ival :
  sortedb ((- N.inf)%float :: x0) = true ->
  distinctb ((- N.inf)%float :: x0) = true ->
  length y0 = length x0 ->
  N_argsort ((- N.inf)%float :: x0) = seq 0 (S (length x0)) /\
  stored N_argsort x0 y0 ival false = stored N_argsort x0 y0 ival true.
Proof.
  intros Hs Hd Hlen.
  assert (Hid : N_argsort ((- N.inf)%float :: x0) = seq 0 (S (length x0))).
  { rewrite (@Sorting.argsort_determined N_argsort argsort_stable _ argsort_ok
               Sorting.argsort_stable_contract Hd).
    now rewrite Sorting.argsort_stable_sorted. }
  split; [assumption|].
  unfold stored. rewrite Hid. f_equal.
  - apply (Sorting.map_nth_seq ((- N.inf)%float :: x0)).
  - replace (S (length x0)) with (length (ival :: y0)) by (cbn [length]; lia).
    apply (Sorting.map_nth_seq (ival :: y0)).
  - now rewrite length_seq.
Qed.

End Constructor.

(** The StepFunction of the breakpoints 0, 1, 2, whatever the argsort. *)
Lemma steps_built N_argsort :
  argsort_contract N_argsort ->
  __init__ N_argsort steps_x steps_y 0%float false = Ok steps.
Proof.
  intros Hok.
  rewrite (@init_determined N_argsort argsort_stable steps_x steps_y 0%float false
             Hok Sorting.argsort_stable_contract eq_refl).
  reflexivity.
Qed.

Lemma steps_cosorted N_argsort :
  argsort_contract N_argsort ->
  __init__ N_argsort unsorted_x unsorted_y 0%float false = Ok steps.
Proof.
  intros Hok.
  rewrite (@init_determined N_argsort argsort_stable unsorted_x unsorted_y
             0%float false Hok Sorting.argsort_stable_contract eq_refl).
  reflexivity.
Qed.

End StepFunctionFacts.

Import StepFunction.

(** The example of the class docstring: with breakpoints and values 0, 1,
    ..., 19, f(3.2) = 3 and f of 3.2, 4.5, 24, -3.1 is 3, 4, 19, 0.  (3.2
    and -3.1 are written as the doubles nearest to them.) *)
Lemma docstring_example :
  exists f,
    (forall N_argsort, argsort_contract N_argsort ->
       __init__ N_argsort (N.array1 (N.arange 20)) (N.array1 (N.arange 20))
                0%float false = Ok f) /\
    __call__ f 0x1.999999999999ap+1%float = Ok 3%float /\
    call_array f [0x1.999999999999ap+1; 4.5; 24; -0x1.8cccccccccccdp+1]%float
    = Ok [3; 4; 19; 0]%float.
Proof.
  eexists. split; [|split].
  - intros N_argsort Hok.
    rewrite (@StepFunctionFacts.init_determined N_argsort argsort_stable
               (N.array1 (N.arange 20)) (N.array1 (N.arange 20)) 0%float false
               Hok Sorting.argsort_stable_contract eq_refl).
    reflexivity.
  - reflexivity.
  - reflexivity.
Qed.

(** Unsorted input is co-sorted: breakpoints 2, 0, 1 with values 30, 10, 20
    give the StepFunction of 0, 1, 2 with 10, 20, 30. *)
Lemma cosort_example N_argsort :
  argsort_contract N_argsort ->
  __init__ N_argsort unsorted_x unsorted_y 0%float false
  = __init__ N_argsort steps_x steps_y 0%float true.
Proof.
  intros Hok. now rewrite (StepFunctionFacts.steps_cosorted Hok).
Qed.

(** C1, as amended: evaluation is left-continuous.  For a StepFunction
    whose stored breakpoints are ascending and a query point [t] with
    [x[k] < t <= x[k+1]], [__call__] returns [y[k]]: the index is the
    leftmost insertion position of [t] (equal breakpoints counted as after
    [t]) minus 1, so a query exactly at the breakpoint [x[k+1]] still
    returns the value of the step that ends there. *)
Theorem call_step_left_continuous (f : StepFunction.t) (k : nat) (t : float) :
  ascendingb (x f) = true ->
  S k < length (x f) ->
  k < length (y f) ->
  (nth k (x f) nan <? t)%float = true ->
  (t <=? nth (S k) (x f) nan)%float = true ->
  scipy.searchsorted (x f) t = S k /\
  __call__ f t = Ok (nth k (y f) nan).
Proof.
  intros Hs Hk Hy Hlt Hle.
  assert (Hr : scipy.searchsorted (x f) t = S k).
  { apply Seq.searchsorted_step.
    - now apply Seq.ascendingb_pairwise_sorted.
    - assumption.
    - now apply FloatOrder.ltb_less.
    - now apply FloatOrder.leb_nless. }
  split; [assumption|]. now apply StepFunctionFacts.call_index.
Qed.

Lemma call_step_left_continuous_witness :
  scipy.searchsorted (x steps) 2%float = 3 /\
  __call__ steps 2%float = Ok (nth 2 (y steps) nan).
Proof.
  apply (@call_step_left_continuous steps 2 2%float).
  - reflexivity.
  - vm_compute. lia.
  - vm_compute. lia.
  - reflexivity.
  - reflexivity.
Defined.

(** C1 as stated fails at a breakpoint.  With breakpoints 0, 1, 2 and values
    10, 20, 30 the stored sequences are -inf, 0, 1, 2 and 0, 10, 20, 30,
    whatever the argsort; the query point 1 lies in [x[2], x[3]) = [1, 2),
    yet the call returns 10, the value of the step before, and not
    y[2] = 20. *)
Lemma call_right_continuous_counterexample :
  exists f,
    (forall N_argsort, argsort_contract N_argsort ->
       __init__ N_argsort steps_x steps_y 0%float false = Ok f) /\
    ascendingb (x f) = true /\
    (nth 2 (x f) nan <=? 1)%float = true /\
    (1 <? nth 3 (x f) nan)%float = true /\
    nth 2 (y f) nan = 20%float /\
    __call__ f 1%float = Ok 10%float /\
    __call__ f 1%float <> Ok (nth 2 (y f) nan).
Proof.
  exists steps. split; [exact StepFunctionFacts.steps_built|].
  repeat (split; [reflexivity|]).
  change (__call__ steps 1%float) with (Ok 10%float).
  change (nth 2 (y steps) nan) with 20%float.
  intros H.
  apply (f_equal (fun r => match r with Ok v => v | Raise _ => nan end)) in H.
  revert H. now apply FloatOrder.eqb_false_neq.
Qed.

(** C10: at minus infinity, the synthetic first breakpoint, the lookup index
    is 0 - 1 = -1, which selects the last stored value; and for every query
    point whatever (finite, infinite or NaN) the index is in range, so
    [__call__] raises nothing.  This holds whatever order the argsort gives
    to equal breakpoints. *)
Theorem call_neg_infinity_wraps (N_argsort : list float -> list nat)
        (x0 y0 : N.ndarray) (ival : float)
        (sorted : bool) (f : StepFunction.t) :
  argsort_contract N_argsort ->
  N.wf x0 -> N.wf y0 ->
  __init__ N_argsort x0 y0 ival sorted = Ok f ->
  (Z.of_nat (scipy.searchsorted (x f) (- N.inf)%float) - 1 = -1)%Z /\
  __call__ f (- N.inf)%float = Ok (last (y f) ival) /\
  forall t, exists v, __call__ f t = Ok v.
Proof.
  intros Hok Hwx Hwy Hf.
  destruct (StepFunctionFacts.init_lengths Hok _ _ Hwx Hwy Hf) as [Hlen Hpos].
  assert (Hne : y f <> []).
  { intros E. rewrite E in Hlen. simpl in Hlen. lia. }
  split; [|split].
  - rewrite Seq.searchsorted_neg_infinity. reflexivity.
  - unfold __call__. rewrite Seq.searchsorted_neg_infinity.
    now apply Seq.getitem_minus_one.
  - intros t. unfold __call__. apply Seq.getitem_in_range; [assumption|].
    pose proof (Seq.searchsorted_le_length (x f) t). lia.
Qed.

Lemma call_neg_infinity_wraps_witness :
  (Z.of_nat (scipy.searchsorted (x steps) (- N.inf)%float) - 1 = -1)%Z /\
  __call__ steps (- N.inf)%float = Ok (last (y steps) 0%float) /\
  forall t, exists v, __call__ steps t = Ok v.
Proof.
  apply (@call_neg_infinity_wraps argsort_rotated steps_x steps_y 0%float false
                                  steps).
  - exact Sorting.argsort_rotated_contract.
  - reflexivity.
  - reflexivity.
  - reflexivity.
Defined.

(** C6: the constructor raises the first ValueError exactly when the two
    shapes differ and the second exactly when they agree but are not
    one-dimensional; in both cases the result is the exception and no
    object; on well-formed input of one one-dimensional shape it returns an
    object.  The messages are those of the source, which puts the words
    "in StepFunction: " in front of the text. *)
Theorem init_raises (N_argsort : list float -> list nat)
        (x0 y0 : N.ndarray) (ival : float) (sorted : bool) :
  argsort_contract N_argsort ->
  N.wf x0 -> N.wf y0 ->
  (__init__ N_argsort x0 y0 ival sorted = Raise ShapeMismatch <->
   N.shape x0 <> N.shape y0) /\
  (__init__ N_argsort x0 y0 ival sorted = Raise DimensionError <->
   N.shape x0 = N.shape y0 /\ N.ndim x0 <> 1) /\
  ((exists f, __init__ N_argsort x0 y0 ival sorted = Ok f) <->
   N.shape x0 = N.shape y0 /\ N.ndim x0 = 1) /\
  error_message ShapeMismatch
  = ("in StepFunction: " ++ "x and y do not have the same shape")%string /\
  error_message DimensionError
  = ("in StepFunction: " ++ "x and y must be 1-dimensional")%string.
Proof.
  intros Hok Hwx Hwy.
  assert (Hcases :
            (N.shape x0 <> N.shape y0 /\
             __init__ N_argsort x0 y0 ival sorted = Raise ShapeMismatch) \/
            (N.shape x0 = N.shape y0 /\ N.ndim x0 <> 1 /\
             __init__ N_argsort x0 y0 ival sorted = Raise DimensionError) \/
            (N.shape x0 = N.shape y0 /\ N.ndim x0 = 1 /\
             exists f, __init__ N_argsort x0 y0 ival sorted = Ok f)).
  { destruct (list_eq_dec Nat.eq_dec (N.shape x0) (N.shape y0)) as [Es|Es].
    - destruct (Nat.eq_dec (N.ndim x0) 1) as [Ed|Ed].
      + right; right.
        rewrite (StepFunctionFacts.init_valid Hok ival sorted Hwx Hwy Es Ed).
        eauto.
      + right; left. split; [assumption|]. split; [assumption|].
        unfold __init__, N.asarray.
        rewrite (proj2 (StepFunctionFacts.shape_eqb_true _ _) Es).
        unfold N.ndim in Ed. apply Nat.eqb_neq in Ed. rewrite Ed. reflexivity.
    - left. split; [assumption|].
      unfold __init__, N.asarray.
      now rewrite (proj2 (StepFunctionFacts.shape_eqb_false _ _) Es). }
  split; [|split; [|split; [|split; reflexivity]]].
  - destruct Hcases as [[Hs H]|[[Hs [Hd H]]|[Hs [Hd [f H]]]]]; rewrite H;
      split; intros H'; try discriminate H'; try reflexivity; tauto.
  - destruct Hcases as [[Hs H]|[[Hs [Hd H]]|[Hs [Hd [f H]]]]]; rewrite H;
      split; intros H'; try discriminate H'; try reflexivity; tauto.
  - destruct Hcases as [[Hs H]|[[Hs [Hd H]]|[Hs [Hd [f H]]]]]; rewrite H;
      split; intros H'; try (destruct H' as [f' H']; discriminate H');
      try tauto; eauto.
Qed.

Lemma init_raises_witness :
  __init__ argsort_stable square_x steps_y 0%float false = Raise ShapeMismatch /\
  __init__ argsort_stable square_x square_x 0%float false = Raise DimensionError /\
  exists f, __init__ argsort_stable steps_x steps_y 0%float false = Ok f.
Proof.
  split; [|split].
  - apply (@init_raises argsort_stable square_x steps_y 0%float false);
      try reflexivity; [exact Sorting.argsort_stable_contract|discriminate].
  - apply (@init_raises argsort_stable square_x square_x 0%float false);
      try reflexivity; [exact Sorting.argsort_stable_contract|].
    split; [reflexivity|discriminate].
  - apply (@init_raises argsort_stable steps_x steps_y 0%float false);
      try reflexivity; [exact Sorting.argsort_stable_contract|].
    split; reflexivity.
Defined.

(** C8, as amended: the sorting path is an ascending co-sort, and on
    strictly ascending input it agrees with the trusting path.  With
    [sorted] false the constructor applies one permutation of the positions
    to the breakpoints and to the values, and the breakpoints it stores are
    in sorted order.  When the input breakpoints are strictly ascending
    and above minus infinity, that permutation is the identity whatever the
    argsort: both constructors return the same object, which evaluates
    alike at every query point.  Nothing is said of tied breakpoints: the
    argsort need not be stable. *)
Theorem init_presorted_same (N_argsort : list float -> list nat)
        (x0 y0 : N.ndarray) (ival : float) :
  argsort_contract N_argsort ->
  N.wf x0 -> N.wf y0 ->
  N.shape x0 = N.shape y0 -> N.ndim x0 = 1 ->
  (exists asort f,
      Permutation asort (seq 0 (S (length (N.data x0)))) /\
      __init__ N_argsort x0 y0 ival false = Ok f /\
      x f = map (fun i => nth i ((- N.inf)%float :: N.data x0) nan) asort /\
      y f = map (fun i => nth i (ival :: N.data y0) nan) asort /\
      sortedb (x f) = true) /\
  (strictly_ascendingb ((- N.inf)%float :: N.data x0) = true ->
   N_argsort ((- N.inf)%float :: N.data x0) = seq 0 (S (length (N.data x0))) /\
   __init__ N_argsort x0 y0 ival false = __init__ N_argsort x0 y0 ival true /\
   (exists f, __init__ N_argsort x0 y0 ival true = Ok f) /\
   (forall f1 f2 t,
       __init__ N_argsort x0 y0 ival true = Ok f1 ->
       __init__ N_argsort x0 y0 ival false = Ok f2 ->
       __call__ f1 t = __call__ f2 t)).
Proof.
  intros Hok Hwx Hwy Es Ed.
  assert (Hlen : length (N.data y0) = length (N.data x0)).
  { assert (Hdy : N.ndim y0 = 1) by (unfold N.ndim in *; congruence).
    pose proof (StepFunctionFacts.wf_1d_length Hwx Ed).
    pose proof (StepFunctionFacts.wf_1d_length Hwy Hdy). congruence. }
  rewrite !(StepFunctionFacts.init_valid Hok ival _ Hwx Hwy Es Ed).
  split.
  - exists (N_argsort ((- N.inf)%float :: N.data x0)),
           (stored N_argsort (N.data x0) (N.data y0) ival false).
    split; [apply (Sorting.argsort_perm Hok)|].
    split; [reflexivity|]. split; [reflexivity|]. split; [reflexivity|].
    apply (StepFunctionFacts.stored_sorted Hok).
  - intros Hs.
    destruct (@StepFunctionFacts.stored_presorted N_argsort Hok
                (N.data x0) (N.data y0) ival) as [Hid Heq].
    + now apply Seq.ascendingb_sortedb, Sorting.strictly_ascendingb_ascendingb.
    + now apply Sorting.strictly_ascendingb_distinctb.
    + assumption.
    + split; [assumption|]. split; [now rewrite Heq|]. split; [eauto|].
      intros f1 f2 t H1 H2. rewrite Heq in H2. congruence.
Qed.

Lemma init_presorted_same_witness :
  (exists asort f,
      Permutation asort (seq 0 (S (length (N.data unsorted_x)))) /\
      __init__ argsort_rotated unsorted_x unsorted_y 0%float false = Ok f /\
      x f = map (fun i => nth i ((- N.inf)%float :: N.data unsorted_x) nan) asort /\
      y f = map (fun i => nth i (0%float :: N.data unsorted_y) nan) asort /\
      sortedb (x f) = true) /\
  __init__ argsort_rotated steps_x steps_y 0%float false
  = __init__ argsort_rotated steps_x steps_y 0%float true.
Proof.
  split.
  - apply (@init_presorted_same argsort_rotated unsorted_x unsorted_y 0%float);
      [exact Sorting.argsort_rotated_contract|reflexivity..].
  - apply (@init_presorted_same argsort_rotated steps_x steps_y 0%float);
      [exact Sorting.argsort_rotated_contract|reflexivity..].
Defined.

(** C8 as stated fails on ascending input with ties.  The breakpoints are
    eight times 0 and eight times 1, the values 1, ..., 16.  With [sorted]
    set the value at the query point 1 is 8, the value of the last 0.
    [argsort_rotated] meets the contract of argsort and is not stable; with
    it the sorting constructor stores the values of the tied breakpoints in
    another order, and the value at 1 is 4. *)
Lemma init_presorted_ties_counterexample :
  argsort_contract argsort_rotated /\
  ascendingb (N.data ties_x) = true /\
  exists f1 f2,
    __init__ argsort_rotated ties_x ties_y 0%float true = Ok f1 /\
    __init__ argsort_rotated ties_x ties_y 0%float false = Ok f2 /\
    x f1 = x f2 /\
    argsort_rotated (x f1) <> seq 0 (length (x f1)) /\
    __call__ f1 1%float = Ok 8%float /\
    __call__ f2 1%float = Ok 4%float /\
    __call__ f1 1%float <> __call__ f2 1%float.
Proof.
  split; [exact Sorting.argsort_rotated_contract|].
  split; [reflexivity|].
  do 2 eexists. split; [reflexivity|]. split; [reflexivity|].
  split; [reflexivity|]. split; [vm_compute; discriminate|].
  split; [reflexivity|]. split; [reflexivity|].
  change (Ok 8%float <> Ok 4%float :> result float). intros H.
  apply (f_equal (fun r => match r with Ok v => v | Raise _ => nan end)) in H.
  revert H. now apply FloatOrder.eqb_false_neq.
Qed.

(** * Monotonicity, and calls on arrays *)

Module ECDFFacts.

Lemma nondecreasingb_le a :
  nondecreasingb a = true ->
  forall i j, i <= j < length a -> (nth i a nan <=? nth j a nan)%float = true.
Proof.
  unfold nondecreasingb. intros H i j Hij.
  apply andb_true_iff in H. destruct H as [Hs Hr].
  destruct (Nat.eq_dec i j) as [->|Hne].
  - rewrite forallb_forall in Hr. apply Hr. apply nth_In. lia.
  - apply (Seq.ascendingb_pairwise _ Hs). lia.
Qed.

(** A key that does not come before another is inserted at the same or a
    later position. *)
Lemma searchsorted_monotone a t1 t2 :
  Seq.pairwise_sorted a -> N.less t2 t1 = false ->
  scipy.searchsorted a t1 <= scipy.searchsorted a t2.
Proof.
  intros Hs Hle.
  destruct (@Seq.searchsorted_sorted a t1 Hs) as [Hbelow1 _].
  destruct (@Seq.searchsorted_sorted a t2 Hs) as [_ Habove2].
  pose proof (Seq.searchsorted_le_length a t1) as Hr1.
  destruct (Nat.le_gt_cases (scipy.searchsorted a t1) (scipy.searchsorted a t2))
    as [H|H]; [assumption|].
  assert (Hc : N.less (nth (scipy.searchsorted a t2) a nan) t2 = true).
  { eapply FloatOrder.less_nless_trans; [|exact Hle]. now apply Hbelow1. }
  rewrite Habove2 in Hc by lia. discriminate.
Qed.

(** A key that the first element comes before is inserted after it. *)
Lemma searchsorted_positive a t :
  Seq.pairwise_sorted a -> a <> [] -> N.less (nth 0 a nan) t = true ->
  0 < scipy.searchsorted a t.
Proof.
  intros Hs Hne Hlt.
  destruct (@Seq.searchsorted_sorted a t Hs) as [_ Habove].
  destruct (scipy.searchsorted a t) eqn:E; [|lia].
  rewrite Habove in Hlt; [discriminate|].
  destruct a; simpl; [congruence|lia].
Qed.

(** On ascending breakpoints and non-decreasing values the step function is
    non-decreasing at all query points above the first breakpoint. *)
Lemma call_monotone (f : StepFunction.t) (t1 t2 : float) :
  ascendingb (x f) = true -> nondecreasingb (y f) = true ->
  length (y f) = length (x f) -> x f <> [] ->
  (nth 0 (x f) nan <? t1)%float = true ->
  (t1 <=? t2)%float = true ->
  exists v1 v2,
    __call__ f t1 = Ok v1 /\ __call__ f t2 = Ok v2 /\ (v1 <=? v2)%float = true.
Proof.
  intros Hx Hy Hlen Hne H0 Hle.
  pose proof (Seq.ascendingb_pairwise_sorted _ Hx) as Hs.
  pose proof (@searchsorted_positive _ t1 Hs Hne (FloatOrder.ltb_less H0)) as Hp.
  pose proof (@searchsorted_monotone _ t1 t2 Hs (FloatOrder.leb_nless Hle)) as Hm.
  pose proof (Seq.searchsorted_le_length (x f) t2) as Hb.
  destruct (scipy.searchsorted (x f) t1) as [|k1] eqn:E1; [lia|].
  destruct (scipy.searchsorted (x f) t2) as [|k2] eqn:E2; [lia|].
  exists (nth k1 (y f) nan), (nth k2 (y f) nan).
  split; [|split].
  - apply StepFunctionFacts.call_index; [assumption|lia].
  - apply StepFunctionFacts.call_index; [assumption|lia].
  - apply nondecreasingb_le; [assumption|lia].
Qed.

(** On sorted data the search for a key may start from any bounds that
    enclose its position. *)
Lemma binsearch_left_enclosed a key lo hi :
  Seq.pairwise_sorted a ->
  lo <= scipy.searchsorted a key <= hi -> hi <= length a ->
  scipy.binsearch_left (length a) a key lo hi = scipy.searchsorted a key.
Proof.
  intros Hs Hr Hhi.
  destruct (@Seq.searchsorted_sorted a key Hs) as [Hbelow Habove].
  apply Seq.binsearch_left_partition; auto. lia.
Qed.

(** So the loop over the keys, which starts each search from the bounds the
    key before has left, finds for every key the position the search for
    that key alone finds. *)
Lemma binsearch_keys_sorted a :
  Seq.pairwise_sorted a ->
  forall keys last_key_val,
    scipy.binsearch_keys a keys last_key_val
                         (scipy.searchsorted a last_key_val)
                         (scipy.searchsorted a last_key_val)
    = map (scipy.searchsorted a) keys.
Proof.
  intros Hs. induction keys as [|key keys IH]; intros last_key_val; [reflexivity|].
  cbn [scipy.binsearch_keys map]. cbv zeta.
  pose proof (Seq.searchsorted_le_length a last_key_val) as Hl.
  pose proof (Seq.searchsorted_le_length a key) as Hk.
  assert (E : scipy.binsearch_left (length a) a key
                (if N.less last_key_val key
                 then scipy.searchsorted a last_key_val else 0)
                (if N.less last_key_val key then length a
                 else if scipy.searchsorted a last_key_val <? length a
                      then S (scipy.searchsorted a last_key_val)
                      else length a)
              = scipy.searchsorted a key).
  { destruct (N.less last_key_val key) eqn:Eless.
    - apply binsearch_left_enclosed; [assumption| |lia].
      split; [|assumption].
      apply searchsorted_monotone; [assumption|].
      now apply FloatOrder.less_asym.
    - pose proof (@searchsorted_monotone a key last_key_val Hs Eless) as Hm.
      destruct (Nat.ltb_spec (scipy.searchsorted a last_key_val) (length a));
        apply binsearch_left_enclosed; auto; lia. }
  rewrite E. f_equal. apply IH.
Qed.

Lemma less_irrefl v : N.less v v = false.
Proof.
  destruct (N.less v v) eqn:E; [|reflexivity].
  now rewrite (@FloatOrder.less_asym v v E) in E.
Qed.

Lemma searchsorted_array_sorted a keys :
  Seq.pairwise_sorted a ->
  scipy.searchsorted_array a keys = map (scipy.searchsorted a) keys.
Proof.
  intros Hs. destruct keys as [|key keys]; [reflexivity|].
  unfold scipy.searchsorted_array. cbn [scipy.binsearch_keys map]. cbv zeta.
  rewrite less_irrefl, Nat.ltb_irrefl.
  change (scipy.binsearch_left (length a) a key 0 (length a))
    with (scipy.searchsorted a key).
  f_equal. now apply binsearch_keys_sorted.
Qed.

Lemma mapM_map {A B C : Type} (g : B -> result C) (h : A -> B) (l : list A) :
  mapM g (map h l) = mapM (fun a => g (h a)) l.
Proof.
  induction l as [|a l IH]; [reflexivity|]. cbn [map mapM]. now rewrite IH.
Qed.




End ECDFFacts.

(** * ECDF *)

Module ECDFMore.

(** The values [(i + 1) / n] that ECDF pairs with the sorted sample. *)
Lemma ecdf_values_length n :
  length (N.divide (map (fun v => (v + 1)%float) (N.arange n)) (float_of_nat n)) = n.
Proof. unfold N.divide, N.arange. now rewrite !length_map, length_seq. Qed.


Lemma sortedb_cons_neg_infinity a :
  sortedb a = true -> sortedb ((- N.inf)%float :: a) = true.
Proof.
  intros H. destruct a as [|v a]; [reflexivity|].
  change ((negb (N.less v (- N.inf)%float) && sortedb (v :: a))%bool = true).
  now rewrite FloatOrder.less_neg_infinity, H.
Qed.

Lemma distinctb_tail v a : distinctb (v :: a) = true -> distinctb a = true.
Proof. cbn [distinctb]. intros H. now apply andb_true_iff in H. Qed.

Section Sorts.

Variable N_sort : list float -> list float.
Variable N_argsort : list float -> list nat.
Hypothesis sort_ok : sort_contract N_sort.
Hypothesis argsort_ok : argsort_contract N_argsort.

(** What ECDF returns, for every sample. *)
Lemma ECDF_stored values :
  ECDF N_sort N_argsort values
  = Ok (stored N_argsort (N_sort values)
               (N.divide (map (fun v => (v + 1)%float) (N.arange (length values)))
                         (float_of_nat (length values)))
               0%float false).
Proof.
  unfold ECDF. rewrite (Sorting.sort_length sort_ok).
  rewrite (StepFunctionFacts.init_valid argsort_ok); [reflexivity| | | |reflexivity].
  - unfold N.wf, N.size, N.product, N.array1. cbn [N.data N.shape fold_right]. lia.
  - unfold N.wf, N.size, N.product, N.array1. cbn [N.data N.shape fold_right]. lia.
  - unfold N.array1. cbn [N.shape].
    now rewrite ecdf_values_length, (Sorting.sort_length sort_ok).
Qed.

Lemma sorted_sample_distinct values :
  distinctb ((- N.inf)%float :: values) = true ->
  distinctb ((- N.inf)%float :: N_sort values) = true.
Proof.
  apply Sorting.distinctb_perm. constructor.
  apply Permutation_sym, (Sorting.sort_perm sort_ok).
Qed.

(** On a sample without ties the sort inside the constructor changes
    nothing. *)
Lemma ECDF_distinct values :
  distinctb ((- N.inf)%float :: values) = true ->
  ECDF N_sort N_argsort values
  = Ok (StepFunction.mk
          ((- N.inf)%float :: N_sort values)
          (0%float :: N.divide (map (fun v => (v + 1)%float)
                                    (N.arange (length values)))
                               (float_of_nat (length values)))
          (S (length values))).
Proof.
  intros Hd. rewrite ECDF_stored.
  destruct (@StepFunctionFacts.stored_presorted N_argsort argsort_ok
              (N_sort values)
              (N.divide (map (fun v => (v + 1)%float) (N.arange (length values)))
                        (float_of_nat (length values)))
              0%float) as [_ E].
  - apply sortedb_cons_neg_infinity, (Sorting.sort_sorted sort_ok).
  - now apply sorted_sample_distinct.
  - now rewrite ecdf_values_length, (Sorting.sort_length sort_ok).
  - rewrite E. unfold stored. cbn [length].
    now rewrite (Sorting.sort_length sort_ok).
Qed.

End Sorts.

(** On a sample without ties ECDF returns the same object whatever the
    sorts. *)
Lemma ECDF_determined (f1 f2 : list float -> list float)
      (g1 g2 : list float -> list nat) values :
  sort_contract f1 -> sort_contract f2 ->
  argsort_contract g1 -> argsort_contract g2 ->
  distinctb ((- N.inf)%float :: values) = true ->
  ECDF f1 g1 values = ECDF f2 g2 values.
Proof.
  intros Hf1 Hf2 Hg1 Hg2 Hd.
  rewrite (ECDF_distinct Hf1 Hg1 _ Hd), (ECDF_distinct Hf2 Hg2 _ Hd).
  now rewrite (@Sorting.sort_determined f1 f2 values Hf1 Hf2 (distinctb_tail _ _ Hd)).
Qed.

End ECDFMore.

(** C2, evaluated on the sample [5, 1, 3, 2, 4], whatever the sorts: the
    stored values are 0, 0.2, 0.4, 0.6, 0.8, 1 over the breakpoints -inf,
    1, 2, 3, 4, 5; at 0 the function is 0 and at 100 it is 1, but at the
    sample point 3 it is 0.4, the fraction of the sample strictly below 3,
    and not 0.6.  (The literals are the doubles nearest to 0.4 and 0.6.) *)
Theorem ECDF_sample_values :
  exists f,
    (forall N_sort N_argsort,
        sort_contract N_sort -> argsort_contract N_argsort ->
        ECDF N_sort N_argsort sample = Ok f) /\
    __call__ f 0%float = Ok 0%float /\
    __call__ f 100%float = Ok 1%float /\
    __call__ f 3%float = Ok 0x1.999999999999ap-2%float /\
    __call__ f 3%float <> Ok 0x1.3333333333333p-1%float /\
    ((2 + 1) / 5 = 0x1.3333333333333p-1)%float.
Proof.
  eexists. split.
  - intros N_sort N_argsort Hs Ha.
    rewrite (@ECDFMore.ECDF_determined N_sort sort_stable N_argsort argsort_stable
               sample Hs Sorting.sort_stable_contract
               Ha Sorting.argsort_stable_contract eq_refl).
    reflexivity.
  - repeat (split; [reflexivity|]).
    split; [|reflexivity].
    intros H.
    apply (f_equal (fun r => match r with Ok v => v | Raise _ => nan end)) in H.
    revert H. now apply FloatOrder.eqb_false_neq.
Qed.

(** The ECDF of the sample is non-decreasing over all query points above
    minus infinity. *)
Lemma ECDF_sample_monotone (N_sort : list float -> list float)
      (N_argsort : list float -> list nat) (f : StepFunction.t) (t1 t2 : float) :
  sort_contract N_sort -> argsort_contract N_argsort ->
  ECDF N_sort N_argsort sample = Ok f ->
  (- N.inf <? t1)%float = true -> (t1 <=? t2)%float = true ->
  exists v1 v2,
    __call__ f t1 = Ok v1 /\ __call__ f t2 = Ok v2 /\ (v1 <=? v2)%float = true.
Proof.
  intros Hs Ha Hf Hlo Hle.
  rewrite (@ECDFMore.ECDF_determined N_sort sort_stable N_argsort argsort_stable
             sample Hs Sorting.sort_stable_contract
             Ha Sorting.argsort_stable_contract eq_refl) in Hf.
  assert (E : f = stored argsort_stable (sort_stable sample)
                         (N.divide (map (fun v => (v + 1)%float) (N.arange 5))
                                   (float_of_nat 5)) 0%float false).
  { assert (H : ECDF sort_stable argsort_stable sample
                = Ok (stored argsort_stable (sort_stable sample)
                         (N.divide (map (fun v => (v + 1)%float) (N.arange 5))
                                   (float_of_nat 5)) 0%float false))
      by reflexivity.
    congruence. }
  subst f. apply ECDFFacts.call_monotone; try reflexivity; try assumption.
  discriminate.
Qed.

(** At minus infinity the index wraps to the last value: the ECDF of the
    sample is 1 there and 0 at 0. *)
Lemma ECDF_sample_neg_infinity :
  exists f,
    (forall N_sort N_argsort,
        sort_contract N_sort -> argsort_contract N_argsort ->
        ECDF N_sort N_argsort sample = Ok f) /\
    __call__ f (- N.inf)%float = Ok 1%float /\
    __call__ f 0%float = Ok 0%float /\
    (- N.inf <=? 0)%float = true /\ (1 <=? 0)%float = false.
Proof.
  eexists. split.
  - intros N_sort N_argsort Hs Ha.
    rewrite (@ECDFMore.ECDF_determined N_sort sort_stable N_argsort argsort_stable
               sample Hs Sorting.sort_stable_contract
               Ha Sorting.argsort_stable_contract eq_refl).
    reflexivity.
  - repeat split; reflexivity.
Qed.
(** * rank and fullrank *)

Module LinalgFacts.



(** The counting expression of [rank]. *)
Lemma count_greater (D : list float) (d0 cond : float) :
  N.add_reduce (N.astype_Int (N.greater (N.divide D d0) cond))
  = count_if (fun d => (cond <? d / d0)%float) D.
Proof.
  unfold count_if, N.add_reduce, N.astype_Int, N.greater, N.divide.
  induction D as [|d D IH]; [reflexivity|].
  cbn [map fold_right filter]. rewrite IH.
  destruct (cond <? d / d0)%float; cbn [length]; lia.
Qed.



(** A sequence of zeros divided by its first element is a sequence of
    NaNs. *)
Lemma divide_zeros (D : list float) d0 :
  is_zero d0 = true -> forallb is_zero D = true ->
  N.divide D d0 = map (fun _ => nan) D.
Proof.
  intros H0. unfold N.divide. induction D as [|d D IH]; intros H; [reflexivity|].
  cbn [forallb] in H. apply andb_true_iff in H. destruct H as [Hd HD].
  cbn [map]. rewrite (FloatOrder.div_zero_zero Hd H0), IH by assumption.
  reflexivity.
Qed.

(** No NaN is greater than anything. *)
Lemma greater_nan_count (D : list float) cond :
  N.add_reduce (N.astype_Int (N.greater (map (fun _ => nan) D) cond)) = 0%Z.
Proof.
  unfold N.add_reduce, N.astype_Int, N.greater.
  induction D as [|d D IH]; [reflexivity|].
  cbn [map fold_right]. rewrite FloatOrder.ltb_nan_r, IH. reflexivity.
Qed.

Lemma descendingb_snoc l v :
  descendingb l = true -> (forall w, In w l -> (v <=? w)%float = true) ->
  descendingb (l ++ [v]) = true.
Proof.
  induction l as [|w l IH]; intros Hs Hall; [reflexivity|].
  destruct l as [|u l].
  - cbn [app descendingb]. rewrite Hall by (now left). reflexivity.
  - change (((u <=? w)%float && descendingb (u :: l))%bool = true) in Hs.
    apply andb_true_iff in Hs. destruct Hs as [Huw Hs].
    change (((u <=? w)%float && descendingb ((u :: l) ++ [v]))%bool = true).
    rewrite Huw, IH; [reflexivity|assumption|].
    intros x Hx. apply Hall. now right.
Qed.

Lemma ascendingb_rev l : ascendingb l = true -> descendingb (rev l) = true.
Proof.
  induction l as [|v l IH]; intros H; [reflexivity|].
  destruct (Seq.ascendingb_cons _ _ H) as [Hs Hall].
  cbn [rev]. apply descendingb_snoc; [now apply IH|].
  intros w Hw. rewrite Forall_forall in Hall. apply Hall. now apply in_rev.
Qed.

(** The singular values taken in the order [fullrank] computes descend. *)
Lemma reversed_argsort_descending (N_argsort : list float -> list nat) D :
  argsort_contract N_argsort -> nan_free D = true ->
  descendingb (map (fun i => nth i D nan) (rev (N_argsort D))) = true.
Proof.
  intros Hok Hnan. rewrite map_rev. apply ascendingb_rev.
  now apply (Sorting.argsort_ascending Hok).
Qed.

Lemma count_if_le_length (p : float -> bool) a :
  (0 <= count_if p a <= Z.of_nat (length a))%Z.
Proof.
  unfold count_if. pose proof (filter_length_le p a). lia.
Qed.

Lemma count_if_mono (p q : float -> bool) a :
  (forall v, p v = true -> q v = true) ->
  (count_if p a <= count_if q a)%Z.
Proof.
  intros H. unfold count_if. apply inj_le.
  induction a as [|v a IH]; [reflexivity|]. cbn [filter].
  destruct (p v) eqn:Ep.
  - rewrite (H v Ep). cbn [length]. lia.
  - destruct (q v); cbn [length]; lia.
Qed.


End LinalgFacts.


(** * Shapes and transposition *)

Module Shape.

Lemma product_app s1 s2 : N.product (s1 ++ s2) = N.product s1 * N.product s2.
Proof.
  unfold N.product. induction s1 as [|a s1 IH]; simpl; [lia|].
  rewrite IH. lia.
Qed.

Lemma product_rev s : N.product (rev s) = N.product s.
Proof.
  induction s as [|a s IH]; [reflexivity|].
  cbn [rev]. rewrite product_app, IH. unfold N.product. simpl. lia.
Qed.

Lemma Forall2_lt_rev (l1 l2 : list nat) :
  Forall2 lt l1 l2 -> Forall2 lt (rev l1) (rev l2).
Proof.
  induction 1 as [|a b l1 l2 Hab H IH]; [constructor|].
  cbn [rev]. apply Forall2_app; [assumption|]. now repeat constructor.
Qed.

(** Every component of the multi-index of a position is below its
    dimension. *)
Lemma unravel_bound s : forall k, k < N.product s -> Forall2 lt (N.unravel s k) s.
Proof.
  induction s as [|a s IH]; intros k Hk; [constructor|].
  cbn [N.unravel]. change (N.product (a :: s)) with (a * N.product s) in Hk.
  assert (Hp : N.product s <> 0) by (intros E; rewrite E in Hk; lia).
  constructor.
  - apply Nat.Div0.div_lt_upper_bound. lia.
  - apply IH. now apply Nat.mod_upper_bound.
Qed.

Lemma ravel_bound s idx : Forall2 lt idx s -> N.ravel s idx < N.product s.
Proof.
  induction 1 as [|i a idx s Hi H IH].
  - unfold N.product. simpl. lia.
  - cbn [N.ravel]. change (N.product (a :: s)) with (a * N.product s). nia.
Qed.

Lemma transpose_shape A : N.shape (N.transpose A) = rev (N.shape A).
Proof. reflexivity. Qed.

(** Every element of the transposed array is an element of the array. *)
Lemma transpose_elements A v :
  N.wf A -> In v (N.data (N.transpose A)) -> In v (N.data A).
Proof.
  unfold N.wf, N.size. intros Hwf Hin. unfold N.transpose in Hin.
  cbn [N.data] in Hin. apply in_map_iff in Hin. destruct Hin as [k [Hk Hin]].
  apply in_seq in Hin. subst v. apply nth_In. rewrite Hwf.
  apply ravel_bound.
  rewrite <- (rev_involutive (N.shape A)) at 2.
  apply Forall2_lt_rev, unravel_bound.
  rewrite product_rev. lia.
Qed.

Lemma transpose_zero A :
  N.wf A -> forallb is_zero (N.data A) = true ->
  forallb is_zero (N.data (N.transpose A)) = true.
Proof.
  intros Hwf Hz. rewrite forallb_forall in *.
  intros v Hv. apply Hz. now apply transpose_elements.
Qed.

End Shape.

(** * The small-matrix primitives meet the contracts *)

Module SmallMatrices.

Ltac case_split H :=
  repeat match type of H with
         | context [match ?v with _ => _ end] => destruct v eqn:?; try discriminate H
         end.

Lemma abs_zero a : is_zero a = true -> is_zero (abs a) = true.
Proof.
  unfold is_zero. rewrite !eqb_spec, abs_spec. intros H.
  destruct (FloatOrder.SFeqb_zero _ H) as [s E]. now rewrite E.
Qed.

Lemma svd_1x1_contract : svd_contract svd_1x1.
Proof.
  intros A V D U H. unfold svd_1x1 in H. case_split H.
  all: inversion H; subst; exists 1, 1.
  all: split; [reflexivity|split; [reflexivity|split; [reflexivity|]]].
  all: split; [repeat constructor|].
  all: intros Hz; cbn [forallb] in *.
  all: rewrite andb_true_r in Hz; rewrite andb_true_r; now apply abs_zero.
Qed.

Lemma identity_rows m :
  length (identity m) = m /\ Forall (fun row => length row = m) (identity m).
Proof.
  unfold identity. split; [now rewrite length_map, length_seq|].
  apply Forall_forall. intros row Hrow. apply in_map_iff in Hrow.
  destruct Hrow as [i [E _]]. subst row. now rewrite length_map, length_seq.
Qed.

Lemma svd_empty_contract : svd_contract svd_empty.
Proof.
  intros A V D U H. unfold svd_empty in H.
  destruct (N.shape A) as [|m [|n [|? ?]]]; try discriminate H.
  destruct (N.data A); [|discriminate H].
  destruct (m * n =? 0) eqn:E; [|discriminate H].
  apply Nat.eqb_eq in E. inversion H; subst. exists m, n.
  split; [reflexivity|]. split; [cbn [length]; nia|].
  split; [apply identity_rows|]. split; [apply identity_rows|reflexivity].
Qed.

Lemma svd_diagonal_contract : svd_contract svd_diagonal.
Proof.
  intros A V D U H. unfold svd_diagonal in H. case_split H.
  all: inversion H; subst; exists 2, 2.
  all: split; [reflexivity|split; [reflexivity|split; [reflexivity|]]].
  all: split; [repeat constructor|].
  all: intros Hz; cbn [forallb] in *.
  all: repeat match goal with
              | Hc : (_ && _)%bool = true |- _ =>
                  apply andb_true_iff in Hc; destruct Hc
              end.
  all: repeat (apply andb_true_iff; split); auto.
Qed.

End SmallMatrices.


Section RankFacts.

Variable N_argsort : list float -> list nat.
Variable L_pinv : N.ndarray -> result N.ndarray.
Variable L_svd : N.ndarray -> result (matrix * list float * matrix).

(** [rank] once the two primitives have returned. *)
Lemma rank_after_svd (X pX : N.ndarray) (cond : float)
      (V U : matrix) (D : list float) :
  L_pinv X = Ok pX ->
  L_svd (N.transpose X) = Ok (V, D, U) ->
  rank L_pinv L_svd X cond
  = (ratios <- rank_ratios D ;;
     Ok (N.add_reduce (N.astype_Int (N.greater ratios cond)))).
Proof.
  intros Hp Hs. unfold rank. rewrite Hp. cbn [bind]. rewrite Hs. reflexivity.
Qed.

(** A [rank] that returns has gone through both primitives and read
    [D[0]]. *)
Lemma rank_ok_inv (X : N.ndarray) (cond : float) (r : Z) :
  rank L_pinv L_svd X cond = Ok r ->
  exists pX V D U d0 rest,
    L_pinv X = Ok pX /\
    L_svd (N.transpose X) = Ok (V, D, U) /\
    D = d0 :: rest /\
    r = count_if (fun d => (cond <? d / d0)%float) D.
Proof.
  unfold rank. intros H.
  destruct (L_pinv X) as [pX|e]; [|discriminate].
  cbn [bind] in H.
  destruct (L_svd (N.transpose X)) as [[[V D] U]|e]; [|discriminate].
  cbn [bind] in H. unfold rank_ratios in H.
  destruct D as [|d0 rest]; [discriminate|].
  change (getitem (d0 :: rest) 0) with (Ok d0) in H. cbn [bind] in H.
  rewrite LinalgFacts.count_greater in H.
  exists pX, V, (d0 :: rest), U, d0, rest. repeat split. congruence.
Qed.



(** With singular values that are all zero, every ratio is NaN. *)
Lemma rank_ratios_zeros (D : list float) :
  D <> [] -> forallb is_zero D = true ->
  rank_ratios D = Ok (map (fun _ => nan) D).
Proof.
  intros Hne Hz. unfold rank_ratios. destruct D as [|d0 rest]; [congruence|].
  change (getitem (d0 :: rest) 0) with (Ok d0). cbn [bind].
  rewrite LinalgFacts.divide_zeros; [reflexivity| |assumption].
  cbn [forallb] in Hz. now apply andb_true_iff in Hz.
Qed.

(** The rank of a non-empty all-zero matrix is 0: every ratio is NaN. *)
Lemma rank_of_zeros (X pX : N.ndarray) (cond : float)
      (V U : matrix) (D : list float) :
  svd_contract L_svd ->
  N.wf X -> N.size X <> 0 ->
  forallb is_zero (N.data X) = true ->
  L_pinv X = Ok pX ->
  L_svd (N.transpose X) = Ok (V, D, U) ->
  D <> [] /\
  rank_ratios D = Ok (map (fun _ => nan) D) /\
  rank L_pinv L_svd X cond = Ok 0%Z.
Proof.
  intros Hc Hwf Hsize Hz Hp Hs.
  destruct (Hc _ _ _ _ Hs) as [m [n [Hsh [Hlen [_ [_ Hzero]]]]]].
  assert (HzD : forallb is_zero D = true)
    by (apply Hzero; now apply Shape.transpose_zero).
  assert (Hne : D <> []).
  { rewrite Shape.transpose_shape in Hsh.
    assert (E : N.shape X = [n; m]).
    { rewrite <- (rev_involutive (N.shape X)), Hsh. reflexivity. }
    unfold N.size in Hsize. rewrite E in Hsize. unfold N.product in Hsize.
    cbn [fold_right] in Hsize.
    intros ED. rewrite ED in Hlen. cbn [length] in Hlen. nia. }
  pose proof (rank_ratios_zeros Hne HzD) as Hr.
  split; [assumption|]. split; [assumption|].
  rewrite (rank_after_svd cond Hp Hs), Hr. cbn [bind]. f_equal.
  apply LinalgFacts.greater_nan_count.
Qed.

(** C4, as amended: for a non-empty all-zero matrix on which the primitives
    return, [rank] is 0.  Nothing guards the division: the singular values
    are all zero, every ratio [D[i] / D[0]] is 0/0 = NaN, and no comparison
    [NaN > cond] holds, so nothing is counted. *)
Theorem rank_zero_matrix (X pX : N.ndarray) (cond : float)
        (V U : matrix) (D : list float) :
  svd_contract L_svd ->
  N.wf X -> N.size X <> 0 ->
  forallb is_zero (N.data X) = true ->
  L_pinv X = Ok pX ->
  L_svd (N.transpose X) = Ok (V, D, U) ->
  D <> [] /\
  rank_ratios D = Ok (map (fun _ => nan) D) /\
  rank L_pinv L_svd X cond = Ok 0%Z.
Proof.
  intros Hc Hwf Hsize Hz Hp Hs.
  destruct (Hc _ _ _ _ Hs) as [m [n [Hsh [Hlen [_ [_ Hzero]]]]]].
  assert (HzD : forallb is_zero D = true)
    by (apply Hzero; now apply Shape.transpose_zero).
  assert (Hne : D <> []).
  { rewrite Shape.transpose_shape in Hsh.
    assert (E : N.shape X = [n; m]).
    { rewrite <- (rev_involutive (N.shape X)), Hsh. reflexivity. }
    unfold N.size in Hsize. rewrite E in Hsize. unfold N.product in Hsize.
    cbn [fold_right] in Hsize.
    intros ED. rewrite ED in Hlen. cbn [length] in Hlen. nia. }
  pose proof (rank_ratios_zeros Hne HzD) as Hr.
  split; [assumption|]. split; [assumption|].
  rewrite (rank_after_svd cond Hp Hs), Hr. cbn [bind]. f_equal.
  apply LinalgFacts.greater_nan_count.
Qed.

(** [rank] raises on every argument that is not a two-dimensional array
    with an element at least: either a primitive raises (the SVD returns
    only on two-dimensional arrays), or the array is two-dimensional
    without elements, there is no singular value, and [D[0]] raises
    IndexError. *)
Lemma rank_rejects_invalid (X : N.ndarray) (cond : float) :
  svd_contract L_svd ->
  N.ndim X <> 2 \/ N.size X = 0 ->
  raises (rank L_pinv L_svd X cond) = true.
Proof.
  intros Hsc Hbad.
  destruct (L_pinv X) as [pX|e] eqn:Hp.
  2:{ unfold rank. rewrite Hp. reflexivity. }
  destruct (L_svd (N.transpose X)) as [[[V D] U]|e] eqn:Hs.
  2:{ unfold rank. rewrite Hp. cbn [bind]. rewrite Hs. reflexivity. }
  destruct (Hsc _ _ _ _ Hs) as [m [n [Hsh [Hlen _]]]].
  rewrite Shape.transpose_shape in Hsh.
  assert (E : N.shape X = [n; m]).
  { rewrite <- (rev_involutive (N.shape X)), Hsh. reflexivity. }
  destruct Hbad as [Hd|Hsize].
  - unfold N.ndim in Hd. rewrite E in Hd. cbn [length] in Hd. congruence.
  - unfold N.size in Hsize. rewrite E in Hsize. unfold N.product in Hsize.
    cbn [fold_right] in Hsize.
    assert (ED : D = []) by (destruct D; [reflexivity|cbn [length] in Hlen; nia]).
    rewrite (rank_after_svd cond Hp Hs). subst D. reflexivity.
Qed.

(** The loop of [fullrank] while [r] does not exceed the number of singular
    values. *)
Lemma fullrank_value_ok (V : matrix) (D : list float) (m : nat) (r : Z) :
  argsort_contract N_argsort ->
  length V = m -> Forall (fun row => length row = m) V ->
  length D <= m ->
  (r <= Z.of_nat (length D))%Z ->
  fullrank_value V (rev (N_argsort D)) r = Ok (top_columns N_argsort V D r).
Proof.
  intros Hok HV Hrows HD Hr. unfold fullrank_value, top_columns.
  apply Seq.mapM_ok. intros i Hi. unfold range in Hi. apply in_seq in Hi.
  assert (Hlen : length (rev (N_argsort D)) = length D)
    by (now rewrite length_rev, (Sorting.argsort_length Hok)).
  assert (Hi' : i < length (rev (N_argsort D))) by lia.
  rewrite (Seq.getitem_nat _ _ (nth_error_nth' _ 0 Hi')). cbn [bind].
  assert (Hj : nth i (rev (N_argsort D)) 0 < length D).
  { apply (Sorting.argsort_in_range Hok). apply in_rev. now apply nth_In. }
  unfold column. apply Seq.mapM_ok. intros row Hrow.
  apply Seq.getitem_nth. rewrite Forall_forall in Hrows.
  rewrite (Hrows row Hrow). lia.
Qed.




(** X19: on a two-dimensional array without elements [rank] raises: when
    both primitives return there is no singular value, and [D[0]] raises
    IndexError. *)
Theorem rank_empty_matrix (X pX : N.ndarray) (cond : float)
        (V U : matrix) (D : list float) (m n : nat) :
  svd_contract L_svd ->
  N.shape X = [m; n] -> m * n = 0 ->
  L_pinv X = Ok pX ->
  L_svd (N.transpose X) = Ok (V, D, U) ->
  D = [] /\
  rank_ratios D = Raise IndexError /\
  rank L_pinv L_svd X cond = Raise IndexError.
Proof.
  intros Hc Hsh Hmn Hp Hs.
  destruct (Hc _ _ _ _ Hs) as [m' [n' [Hsh' [Hlen _]]]].
  rewrite Shape.transpose_shape, Hsh in Hsh'. cbn [rev app] in Hsh'.
  assert (Em : m' = n) by congruence. assert (En : n' = m) by congruence.
  subst m' n'.
  assert (ED : D = []) by (destruct D; [reflexivity|cbn [length] in Hlen; nia]).
  split; [assumption|].
  rewrite (rank_after_svd cond Hp Hs). subst D. split; reflexivity.
Qed.

End RankFacts.


(** On diag(1, 2) the singular values come back as 2, 1: with the tolerance
    0.75 one ratio, 2/2, exceeds it and the rank is 1. *)
Lemma rank_diag_1_2 :
  svd_diagonal (N.transpose matrix_diag_1_2)
  = Ok ([[0; 1]; [1; 0]]%float, [2; 1]%float, [[0; 1]; [1; 0]]%float) /\
  count_if (fun d => (0.75 <? d / maximum [2; 1])%float) [2; 1]%float = 1%Z /\
  rank pinv_diagonal svd_diagonal matrix_diag_1_2 0.75%float = Ok 1%Z.
Proof. repeat split; reflexivity. Qed.

Lemma rank_zero_matrix_witness :
  [0%float] <> [] /\
  rank_ratios [0%float] = Ok (map (fun _ => nan) [0%float]) /\
  rank pinv_1x1 svd_1x1 matrix_0 default_cond = Ok 0%Z.
Proof.
  apply (@rank_zero_matrix pinv_1x1 svd_1x1 matrix_0
           (N.mk_ndarray [1; 1] [0%float]) default_cond
           [[1%float]] [[1%float]] [0%float]).
  - exact SmallMatrices.svd_1x1_contract.
  - reflexivity.
  - vm_compute. lia.
  - reflexivity.
  - reflexivity.
  - reflexivity.
Defined.

(** C4 as stated fails in its mechanism: on the zero matrix [[0]] the
    division is carried out with the divisor 0 and produces NaN; the result
    0 comes from the comparison with NaN, not from a guard. *)
Lemma rank_zero_unguarded_counterexample :
  exists V D U ratios,
    svd_1x1 (N.transpose matrix_0) = Ok (V, D, U) /\
    getitem D 0 = Ok 0%float /\
    rank_ratios D = Ok ratios /\
    existsb is_nan ratios = true /\
    rank pinv_1x1 svd_1x1 matrix_0 default_cond = Ok 0%Z.
Proof.
  do 4 eexists. split; [reflexivity|]. repeat split; reflexivity.
Qed.

(** [rank] on a zero-dimensional array and on an array with no row: the
    first is refused by the primitive, the second ends at [D[0]]. *)
Lemma rank_rejects_invalid_examples :
  raises (rank pinv_1x1 svd_1x1 scalar_5 default_cond) = true /\
  rank pinv_empty svd_empty scalar_5 default_cond = Raise LinAlgError /\
  rank pinv_empty svd_empty matrix_empty default_cond = Raise IndexError.
Proof.
  split; [|split; reflexivity].
  apply (@rank_rejects_invalid pinv_1x1 svd_1x1 scalar_5 default_cond).
  - exact SmallMatrices.svd_1x1_contract.
  - left. vm_compute. lia.
Qed.

Lemma rank_empty_matrix_witness :
  @nil float = [] /\
  rank_ratios [] = Raise IndexError /\
  rank pinv_empty svd_empty matrix_empty default_cond = Raise IndexError.
Proof.
  apply (@rank_empty_matrix pinv_empty svd_empty matrix_empty
           (N.mk_ndarray [3; 0] []) default_cond
           (identity 3) (identity 0) [] 0 3).
  - exact SmallMatrices.svd_empty_contract.
  - reflexivity.
  - reflexivity.
  - reflexivity.
  - reflexivity.
Defined.


(** * monotone_fn_inverter *)

(** C9, evaluated: whatever the function, the sample points and the flag,
    the call ends in NameError, for the last line of the function mentions
    LinearInterpolant and the module binds no such name.  Before that line
    [y] holds, without [vectorized], the values of [fn] at the elements of
    [x], one call per element and in their order. *)
Theorem monotone_fn_inverter_name_error (Interpolant : Type)
        (LinearInterpolant : list float -> list float -> bool -> result Interpolant)
        (fn : pyfunc) (x0 : list float) (vectorized : bool) :
  monotone_fn_inverter LinearInterpolant fn x0 vectorized
  = Raise (NameError "LinearInterpolant") /\
  inverter_samples fn x0 false = map (on_scalar fn) x0 /\
  inverter_samples fn x0 true = on_array fn x0.
Proof.
  repeat split; reflexivity.
Qed.

(** * inv and inv0 *)

Module Reciprocal.

Lemma SFltb_zero_pos a :
  SFltb (S754_zero false) a = true ->
  a = S754_infinity false \/ exists m e, a = S754_finite false m e.
Proof.
  destruct a as [s|s| |s m e]; unfold SFltb; simpl; try discriminate;
    destruct s; try discriminate; eauto.
Qed.

Lemma SFleb_zero_not_ltb a :
  SFleb (S754_zero false) a = true -> SFltb (S754_zero false) a = false ->
  exists s, a = S754_zero s.
Proof.
  destruct a as [s|s| |s m e]; unfold SFleb, SFltb; simpl; try discriminate;
    eauto; destruct s; discriminate.
Qed.

Lemma SFltb_not_eqb a b : SFltb a b = true -> SFeqb b a = false.
Proof. FloatOrder.sf_order. Qed.

Lemma SFleb_not_nan a b : SFleb a b = true -> SFeqb b b = true.
Proof. FloatOrder.sf_order. Qed.

(** What is at or above another double is not NaN. *)
Lemma leb_not_nan a b : (a <=? b)%float = true -> (b =? b)%float = true.
Proof. rewrite leb_spec, eqb_spec. apply SFleb_not_nan. Qed.

Lemma prim_zero : Prim2SF 0%float = S754_zero false.
Proof. reflexivity. Qed.

(** Adding zero to a positive double leaves it as it is. *)
Lemma add_zero_r v : (0 <? v)%float = true -> (v + 0)%float = v.
Proof.
  rewrite ltb_spec, prim_zero. intros H.
  apply Prim2SF_inj. rewrite add_spec, prim_zero.
  destruct (SFltb_zero_pos _ H) as [E|[m [e E]]]; rewrite E; reflexivity.
Qed.

(** Zero of either sign plus one is one. *)
Lemma zero_add_one v : is_zero v = true -> (v + 1)%float = 1%float.
Proof.
  unfold is_zero. rewrite eqb_spec, prim_zero. intros H.
  destruct (FloatOrder.SFeqb_zero _ H) as [s E].
  apply Prim2SF_inj. rewrite add_spec, E. reflexivity.
Qed.

Lemma leb_zero_not_ltb v :
  (0 <=? v)%float = true -> (0 <? v)%float = false -> is_zero v = true.
Proof.
  unfold is_zero. rewrite leb_spec, ltb_spec, eqb_spec, prim_zero. intros H1 H2.
  destruct (SFleb_zero_not_ltb _ H1 H2) as [s E]. rewrite E.
  destruct s; reflexivity.
Qed.

Lemma ltb_not_eqb a b : (a <? b)%float = true -> (b =? a)%float = false.
Proof. rewrite ltb_spec, eqb_spec. apply SFltb_not_eqb. Qed.

Lemma is_zero_leb v : is_zero v = true -> (v <=? 0)%float = true.
Proof.
  unfold is_zero. rewrite eqb_spec, leb_spec, prim_zero. intros H.
  destruct (FloatOrder.SFeqb_zero _ H) as [s E]. rewrite E. reflexivity.
Qed.

Lemma is_zero_not_pos v : is_zero v = true -> (0 <? v)%float = false.
Proof.
  unfold is_zero. rewrite eqb_spec, ltb_spec, prim_zero. intros H.
  destruct (FloatOrder.SFeqb_zero _ H) as [s E]. rewrite E. reflexivity.
Qed.

Lemma map_combine_map {A B C D : Type} (f : B * C -> D) (g : A -> B) (h : A -> C)
      (l : list A) :
  map f (combine (map g l) (map h l)) = map (fun v => f (g v, h v)) l.
Proof.
  induction l as [|a l IH]; [reflexivity|]. cbn [map combine]. now rewrite IH.
Qed.

Lemma inv_denominator_entries x :
  inv_denominator x = map denominator_entry x.
Proof.
  unfold inv_denominator, N.add_arrays, N.float_of_bools, N.less_equal.
  rewrite map_map.
  rewrite <- (map_id x) at 1. rewrite map_combine_map. reflexivity.
Qed.

Lemma inv_data X : N.data (inv X) = map inv_entry (N.data X).
Proof.
  unfold inv. cbn [N.data]. rewrite inv_denominator_entries.
  unfold N.divide_arrays, N.float_of_bools, N.greater, N.maximum.
  rewrite !map_map, map_combine_map. reflexivity.
Qed.

Lemma inv0_data X : N.data (inv0 X) = map inv0_entry (N.data X).
Proof.
  unfold inv0. cbn [N.data]. unfold N.where_, N.equal, N.rdivide.
  rewrite map_combine_map. reflexivity.
Qed.

(** The denominator of an entry that is not NaN: the entry itself when it
    is positive, one otherwise. *)
Lemma denominator_clip v :
  (v =? v)%float = true ->
  denominator_entry (clip v) = if (0 <? v)%float then v else 1%float.
Proof.
  intros Hnan. unfold denominator_entry, clip, is_nan. rewrite Hnan. cbn [negb].
  rewrite orb_false_r.
  destruct (0 <? v)%float eqn:Epos.
  - rewrite (FloatOrder.ltb_leb Epos), (FloatOrder.ltb_not_leb Epos).
    now apply add_zero_r.
  - destruct (0 <=? v)%float eqn:Ele.
    + pose proof (leb_zero_not_ltb Ele Epos) as Hz.
      rewrite (is_zero_leb Hz). now apply zero_add_one.
    + reflexivity.
Qed.

Lemma inv_entry_value v :
  (v =? v)%float = true ->
  inv_entry v = if (0 <? v)%float then (1 / v)%float else 0%float.
Proof.
  intros Hnan. unfold inv_entry. rewrite (denominator_clip Hnan).
  unfold clip, is_nan. rewrite Hnan. cbn [negb]. rewrite orb_false_r.
  destruct (0 <? v)%float eqn:Epos.
  - rewrite (FloatOrder.ltb_leb Epos), Epos. reflexivity.
  - destruct (0 <=? v)%float eqn:Ele.
    + rewrite Epos. reflexivity.
    + reflexivity.
Qed.

End Reciprocal.

(** X1: [inv] keeps the shape of its argument; an entry that is positive is
    replaced by its reciprocal and an entry that is zero or negative by 0
    (entries that are NaN apart). *)
Theorem inv_entries (X : N.ndarray) (i : nat) (v : float) :
  nth_error (N.data X) i = Some v ->
  (v =? v)%float = true ->
  N.shape (inv X) = N.shape X /\
  length (N.data (inv X)) = length (N.data X) /\
  nth_error (N.data (inv X)) i
  = Some (if (0 <? v)%float then (1 / v)%float else 0%float).
Proof.
  intros Hi Hnan. split; [reflexivity|].
  rewrite Reciprocal.inv_data, length_map. split; [reflexivity|].
  rewrite nth_error_map, Hi. cbn [option_map].
  now rewrite Reciprocal.inv_entry_value.
Qed.

Lemma inv_entries_witness :
  N.shape (inv mixed) = N.shape mixed /\
  length (N.data (inv mixed)) = length (N.data mixed) /\
  nth_error (N.data (inv mixed)) 1 = Some 0%float.
Proof.
  apply (@inv_entries mixed 1 (-2)%float); reflexivity.
Defined.

(** X2: [inv] never divides by zero: on an array without NaN every entry of
    its denominator [x + N.less_equal(x, 0.)] is different from zero (it is
    the entry itself where that is positive and 1 elsewhere). *)
Theorem inv_denominator_nonzero (X : N.ndarray) :
  nan_free (N.data X) = true ->
  forallb (fun d => negb (d =? 0)%float)
          (inv_denominator (N.maximum (N.data X) 0%float)) = true.
Proof.
  intros Hnan. rewrite Reciprocal.inv_denominator_entries.
  unfold N.maximum. rewrite map_map. apply forallb_forall.
  intros d Hd. apply in_map_iff in Hd. destruct Hd as [v [Ed Hv]].
  unfold nan_free in Hnan. rewrite forallb_forall in Hnan.
  pose proof (Reciprocal.denominator_clip (Hnan v Hv)) as Hden.
  unfold clip in Hden. rewrite Hden in Ed. subst d.
  destruct (0 <? v)%float eqn:Epos.
  - now rewrite (Reciprocal.ltb_not_eqb Epos).
  - reflexivity.
Qed.

Lemma inv_denominator_nonzero_witness :
  forallb (fun d => negb (d =? 0)%float)
          (inv_denominator (N.maximum (N.data mixed) 0%float)) = true.
Proof.
  apply (@inv_denominator_nonzero mixed). reflexivity.
Defined.

(** X3: on an array without negative (and without NaN) entries [inv] and
    [inv0] return the same array: 0 at the zeros of either sign, the
    reciprocal elsewhere. *)
Theorem inv_inv0_agree (X : N.ndarray) :
  forallb (fun v => (0 <=? v)%float) (N.data X) = true ->
  inv X = inv0 X.
Proof.
  intros Hpos.
  assert (E : N.data (inv X) = N.data (inv0 X)).
  { rewrite Reciprocal.inv_data, Reciprocal.inv0_data.
    apply map_ext_in. intros v Hv. rewrite forallb_forall in Hpos.
    pose proof (Hpos v Hv) as Hle.
    pose proof (Reciprocal.leb_not_nan Hle) as Hnan.
    rewrite (Reciprocal.inv_entry_value Hnan). unfold inv0_entry.
    destruct (0 <? v)%float eqn:Epos.
    - now rewrite (Reciprocal.ltb_not_eqb Epos).
    - pose proof (Reciprocal.leb_zero_not_ltb Hle Epos) as Hz.
      unfold is_zero in Hz. now rewrite Hz. }
  unfold inv, inv0 in *. cbn [N.data] in E. now rewrite E.
Qed.

Lemma inv_inv0_agree_witness : inv nonnegative = inv0 nonnegative.
Proof.
  apply (@inv_inv0_agree nonnegative). reflexivity.
Defined.

(** * More on the stored sequences *)

Module StepFunctionMore.

Import StepFunction.

(** When every input breakpoint is above minus infinity, minus infinity is
    stored first, whatever the argsort; the other stored breakpoints are
    the input breakpoints in some order, and the first stored value is
    [ival]. *)
Lemma stored_split (N_argsort : list float -> list nat) x0 y0 ival sorted :
  argsort_contract N_argsort ->
  (forall v, In v x0 -> N.less (- N.inf)%float v = true) ->
  exists xs ys,
    x (stored N_argsort x0 y0 ival sorted) = (- N.inf)%float :: xs /\
    y (stored N_argsort x0 y0 ival sorted) = ival :: ys /\
    Permutation xs x0.
Proof.
  intros Hok Habove. unfold stored. destruct sorted; cbn [x y].
  - exists x0, y0. repeat split; reflexivity.
  - pose proof (Sorting.argsort_perm Hok ((- N.inf)%float :: x0)) as Hp.
    pose proof (Sorting.argsort_sorted Hok ((- N.inf)%float :: x0)) as Hs.
    destruct (N_argsort ((- N.inf)%float :: x0)) as [|i rest].
    + apply Permutation_nil in Hp. discriminate Hp.
    + assert (E : i = 0).
      { destruct i as [|i']; [reflexivity|]. exfalso.
        assert (Hin0 : In 0 rest).
        { assert (H : In 0 (S i' :: rest)).
          { apply (Permutation_in _ (Permutation_sym Hp)). now left. }
          destruct H as [H|H]; [discriminate|assumption]. }
        assert (Hi' : i' < length x0).
        { assert (H : In (S i') (seq 0 (length ((- N.inf)%float :: x0))))
            by (apply (Permutation_in _ Hp); now left).
          apply in_seq in H. cbn [length] in H. lia. }
        cbn [map] in Hs. destruct (Seq.sortedb_cons _ _ Hs) as [_ Hall].
        rewrite Forall_forall in Hall.
        specialize (Hall (nth 0 ((- N.inf)%float :: x0) nan)
                         (in_map (fun i => nth i ((- N.inf)%float :: x0) nan)
                                 rest 0 Hin0)).
        cbn [nth] in Hall.
        rewrite Habove in Hall by (apply nth_In; lia). discriminate. }
      subst i. cbn [map nth]. eexists _, _.
      split; [reflexivity|]. split; [reflexivity|].
      cbn [length seq] in Hp. apply Permutation_cons_inv in Hp.
      rewrite (Permutation_map _ Hp), <- seq_shift, map_map. cbn [nth].
      now rewrite Sorting.map_nth_seq.
Qed.

End StepFunctionMore.

(** X4: whatever the constructor returns holds one entry more than the
    input in both sequences, [n] is that number, and the stored pairs
    (breakpoint, value) are the pair (-inf, ival) and the input pairs in
    some order: sorting never separates a breakpoint from its value. *)
Theorem init_keeps_pairs (N_argsort : list float -> list nat)
        (x0 y0 : N.ndarray) (ival : float) (sorted : bool)
        (f : StepFunction.t) :
  argsort_contract N_argsort ->
  N.wf x0 -> N.wf y0 ->
  __init__ N_argsort x0 y0 ival sorted = Ok f ->
  n f = S (length (N.data x0)) /\
  length (x f) = n f /\
  length (y f) = n f /\
  Permutation (combine (x f) (y f))
              (((- N.inf)%float, ival) :: combine (N.data x0) (N.data y0)).
Proof.
  intros Hok Hwx Hwy Hf.
  destruct (StepFunctionFacts.init_ok_inv Hok _ _ Hwx Hwy Hf) as [E Hlen].
  subst f.
  destruct (@StepFunctionFacts.stored_lengths N_argsort Hok _ _ ival sorted Hlen)
    as [Hx [Hy Hn]].
  rewrite Hn, Hx, Hy. repeat split.
  now apply StepFunctionFacts.stored_pairs.
Qed.

Lemma init_keeps_pairs_witness :
  n steps = 4 /\
  length (x steps) = n steps /\
  length (y steps) = n steps /\
  Permutation (combine (x steps) (y steps))
              (((- N.inf)%float, 0%float)
                 :: combine (N.data unsorted_x) (N.data unsorted_y)).
Proof.
  apply (@init_keeps_pairs argsort_rotated unsorted_x unsorted_y 0%float false
                           steps);
    [exact Sorting.argsort_rotated_contract|reflexivity..].
Defined.

(** X5: everything to the left of the breakpoints is set to [ival]: at a
    query point above minus infinity that no input breakpoint is strictly
    below, the call returns [ival], sorted input or not, whatever the
    argsort. *)
Theorem call_below_breakpoints (N_argsort : list float -> list nat)
        (x0 y0 : N.ndarray) (ival : float)
        (sorted : bool) (f : StepFunction.t) (t : float) :
  argsort_contract N_argsort ->
  N.wf x0 -> N.wf y0 ->
  __init__ N_argsort x0 y0 ival sorted = Ok f ->
  (- N.inf <? t)%float = true ->
  forallb (fun v => (t <=? v)%float) (N.data x0) = true ->
  __call__ f t = Ok ival.
Proof.
  intros Hok Hwx Hwy Hf Hlo Hall.
  destruct (StepFunctionFacts.init_ok_inv Hok _ _ Hwx Hwy Hf) as [E Hlen].
  subst f. rewrite forallb_forall in Hall.
  destruct (@StepFunctionMore.stored_split N_argsort (N.data x0) (N.data y0)
              ival sorted Hok)
    as [xs [ys [Ex [Ey Hp]]]].
  { intros v Hv. apply FloatOrder.ltb_less.
    eapply FloatOrder.ltb_leb_trans; [exact Hlo|]. now apply Hall. }
  unfold __call__. rewrite Ex, Ey.
  rewrite (@Seq.searchsorted_partition _ t 1).
  - reflexivity.
  - cbn [length]. lia.
  - intros i Hi. replace i with 0 by lia. now apply FloatOrder.ltb_less.
  - intros i Hi. destruct i as [|i]; [lia|]. cbn [nth length] in *.
    apply FloatOrder.leb_nless.
    apply Hall. apply (Permutation_in _ Hp). apply nth_In. lia.
Qed.

Lemma call_below_breakpoints_witness : __call__ steps (-1)%float = Ok 0%float.
Proof.
  apply (@call_below_breakpoints argsort_rotated unsorted_x unsorted_y 0%float
                                 false steps (-1)%float);
    [exact Sorting.argsort_rotated_contract|reflexivity..].
Defined.

(** X6: everything to the right of the breakpoints is set to the last
    stored value: at a query point that every input breakpoint (and minus
    infinity) is strictly below, the call returns the last entry of the
    stored values, sorted input or not, whatever the argsort. *)
Theorem call_above_breakpoints (N_argsort : list float -> list nat)
        (x0 y0 : N.ndarray) (ival : float)
        (sorted : bool) (f : StepFunction.t) (t : float) :
  argsort_contract N_argsort ->
  N.wf x0 -> N.wf y0 ->
  __init__ N_argsort x0 y0 ival sorted = Ok f ->
  (- N.inf <? t)%float = true ->
  forallb (fun v => (v <? t)%float) (N.data x0) = true ->
  __call__ f t = Ok (last (y f) ival).
Proof.
  intros Hok Hwx Hwy Hf Hlo Hall.
  destruct (StepFunctionFacts.init_lengths Hok _ _ Hwx Hwy Hf) as [Hl Hpos].
  destruct (StepFunctionFacts.init_ok_inv Hok _ _ Hwx Hwy Hf) as [E Hlen].
  assert (Hne : y f <> []).
  { intros Ey. rewrite Ey in Hl. simpl in Hl. lia. }
  assert (Hx : Permutation (x f) ((- N.inf)%float :: N.data x0))
    by (rewrite E; apply (StepFunctionFacts.stored_x_perm Hok)).
  unfold __call__. rewrite Seq.searchsorted_all_below.
  - rewrite <- Hl. now apply StepFunctionFacts.getitem_last.
  - intros i Hi. apply FloatOrder.ltb_less.
    assert (Hin : In (nth i (x f) nan) ((- N.inf)%float :: N.data x0))
      by (apply (Permutation_in _ Hx); now apply nth_In).
    destruct Hin as [<-|Hin]; [assumption|].
    rewrite forallb_forall in Hall. now apply Hall.
Qed.

Lemma call_above_breakpoints_witness :
  __call__ steps 24%float = Ok (last (y steps) 0%float).
Proof.
  apply (@call_above_breakpoints argsort_rotated unsorted_x unsorted_y 0%float
                                 false steps 24%float);
    [exact Sorting.argsort_rotated_contract|reflexivity..].
Defined.

(** X7: when the constructor sorts ([sorted] false) and no input breakpoint
    is NaN, the stored breakpoints ascend. *)
Theorem init_sorts_breakpoints (N_argsort : list float -> list nat)
        (x0 y0 : N.ndarray) (ival : float)
        (f : StepFunction.t) :
  argsort_contract N_argsort ->
  N.wf x0 -> N.wf y0 ->
  __init__ N_argsort x0 y0 ival false = Ok f ->
  nan_free (N.data x0) = true ->
  ascendingb (x f) = true.
Proof.
  intros Hok Hwx Hwy Hf Hnan.
  destruct (StepFunctionFacts.init_ok_inv Hok _ _ Hwx Hwy Hf) as [E _]. subst f.
  apply (StepFunctionFacts.stored_ascending Hok); [assumption|discriminate].
Qed.

Lemma init_sorts_breakpoints_witness : ascendingb (x steps) = true.
Proof.
  apply (@init_sorts_breakpoints argsort_rotated unsorted_x unsorted_y 0%float
                                 steps);
    [exact Sorting.argsort_rotated_contract|reflexivity..].
Defined.

(** X8: on breakpoints stored in sorted order a call on an array of query
    points returns, position by position, what the call on each query point
    alone returns.  The loop of [searchsorted] over the keys starts each
    search from the bounds the key before has left; on sorted breakpoints
    that does not change the positions found.  With as many values as
    breakpoints, and one at least, the call raises nothing. *)
Theorem call_array_elementwise (f : StepFunction.t) (time : list float) :
  sortedb (x f) = true ->
  scipy.searchsorted_array (x f) time = map (scipy.searchsorted (x f)) time /\
  call_array f time = mapM (__call__ f) time /\
  (length (y f) = length (x f) -> x f <> [] ->
   exists values,
     call_array f time = Ok values /\
     length values = length time /\
     forall i t, nth_error time i = Some t ->
                 exists v, nth_error values i = Some v /\ __call__ f t = Ok v).
Proof.
  intros Hs.
  pose proof (ECDFFacts.searchsorted_array_sorted time (Seq.sortedb_pairwise _ Hs))
    as Hr.
  assert (Hc : call_array f time = mapM (__call__ f) time).
  { unfold call_array. cbv zeta. rewrite Hr, map_map, ECDFFacts.mapM_map.
    reflexivity. }
  split; [assumption|]. split; [assumption|].
  intros Hl Hne. rewrite Hc.
  assert (Hny : y f <> []).
  { intros E. rewrite E in Hl. destruct (x f); [congruence|discriminate]. }
  assert (Hcall : forall t, exists v, __call__ f t = Ok v).
  { intros t. unfold __call__. apply Seq.getitem_in_range; [assumption|].
    pose proof (Seq.searchsorted_le_length (x f) t). lia. }
  set (g := fun t => match __call__ f t with Ok v => v | Raise _ => nan end).
  assert (Hg : forall t, __call__ f t = Ok (g t)).
  { intros t. unfold g. destruct (Hcall t) as [v Hv]. now rewrite Hv. }
  exists (map g time). split; [|split].
  - apply Seq.mapM_ok. intros t _. apply Hg.
  - apply length_map.
  - intros i t Hi. exists (g t). split; [|apply Hg].
    rewrite nth_error_map, Hi. reflexivity.
Qed.

Lemma call_array_elementwise_witness :
  scipy.searchsorted_array (x steps) [1.5; 0.5; 24; -1; nan]%float
  = map (scipy.searchsorted (x steps)) [1.5; 0.5; 24; -1; nan]%float /\
  call_array steps [1.5; 0.5; 24; -1; nan]%float
  = mapM (__call__ steps) [1.5; 0.5; 24; -1; nan]%float /\
  exists values,
    call_array steps [1.5; 0.5; 24; -1; nan]%float = Ok values /\
    length values = length [1.5; 0.5; 24; -1; nan]%float /\
    forall i t, nth_error [1.5; 0.5; 24; -1; nan]%float i = Some t ->
                exists v, nth_error values i = Some v /\ __call__ steps t = Ok v.
Proof.
  destruct (@call_array_elementwise steps [1.5; 0.5; 24; -1; nan]%float eq_refl)
    as [H1 [H2 H3]].
  split; [exact H1|]. split; [exact H2|].
  apply H3; [reflexivity|discriminate].
Defined.

(** On breakpoints that are not sorted (stored as they came, with [sorted]
    set) the call on an array may differ from the calls on its elements:
    over -inf, 0, 10, 1 the keys 2, 3 are given the positions 2 and 4,
    while the key 3 alone is given the position 2. *)
Lemma call_array_unsorted_example :
  scipy.searchsorted_array [- N.inf; 0; 10; 1]%float [2; 3]%float = [2; 4] /\
  scipy.searchsorted [- N.inf; 0; 10; 1]%float 3%float = 2 /\
  sortedb [- N.inf; 0; 10; 1]%float = false.
Proof. repeat split; reflexivity. Qed.

(** X9: a StepFunction with ascending breakpoints and non-decreasing values
    is non-decreasing: for query points [t1 <= t2] above the first stored
    breakpoint, the value at [t1] is at most the value at [t2]. *)
Theorem call_nondecreasing (f : StepFunction.t) (t1 t2 : float) :
  ascendingb (x f) = true ->
  nondecreasingb (y f) = true ->
  length (y f) = length (x f) ->
  x f <> [] ->
  (nth 0 (x f) nan <? t1)%float = true ->
  (t1 <=? t2)%float = true ->
  exists v1 v2,
    __call__ f t1 = Ok v1 /\ __call__ f t2 = Ok v2 /\ (v1 <=? v2)%float = true.
Proof.
  intros. now apply ECDFFacts.call_monotone.
Qed.

Lemma call_nondecreasing_witness :
  exists v1 v2,
    __call__ steps 0.5%float = Ok v1 /\ __call__ steps 1.5%float = Ok v2 /\
    (v1 <=? v2)%float = true.
Proof.
  apply (@call_nondecreasing steps 0.5%float 1.5%float);
    try reflexivity. discriminate.
Defined.

(** X18: at a query point that is NaN the call raises nothing and does not
    return NaN for it: when no input breakpoint is NaN, the search puts NaN
    after every breakpoint, and the call returns the last stored value. *)
Theorem call_nan (N_argsort : list float -> list nat)
        (x0 y0 : N.ndarray) (ival : float) (sorted : bool)
        (f : StepFunction.t) :
  argsort_contract N_argsort ->
  N.wf x0 -> N.wf y0 ->
  __init__ N_argsort x0 y0 ival sorted = Ok f ->
  nan_free (N.data x0) = true ->
  scipy.searchsorted (x f) nan = length (x f) /\
  __call__ f nan = Ok (last (y f) ival).
Proof.
  intros Hok Hwx Hwy Hf Hnan.
  destruct (StepFunctionFacts.init_lengths Hok _ _ Hwx Hwy Hf) as [Hl Hpos].
  destruct (StepFunctionFacts.init_ok_inv Hok _ _ Hwx Hwy Hf) as [E Hlen].
  assert (Hne : y f <> []).
  { intros Ey. rewrite Ey in Hl. simpl in Hl. lia. }
  assert (Hx : Permutation (x f) ((- N.inf)%float :: N.data x0))
    by (rewrite E; apply (StepFunctionFacts.stored_x_perm Hok)).
  assert (Hr : scipy.searchsorted (x f) nan = length (x f)).
  { apply Seq.searchsorted_all_below. intros i Hi.
    apply FloatOrder.less_nan_r; [|reflexivity].
    assert (Hin : In (nth i (x f) nan) ((- N.inf)%float :: N.data x0))
      by (apply (Permutation_in _ Hx); now apply nth_In).
    destruct Hin as [<-|Hin]; [reflexivity|].
    unfold nan_free in Hnan. rewrite forallb_forall in Hnan. now apply Hnan. }
  split; [assumption|].
  unfold __call__. rewrite Hr, <- Hl.
  now apply StepFunctionFacts.getitem_last.
Qed.

Lemma call_nan_witness :
  scipy.searchsorted (x steps) nan = length (x steps) /\
  __call__ steps nan = Ok (last (y steps) 0%float).
Proof.
  apply (@call_nan argsort_rotated unsorted_x unsorted_y 0%float false steps);
    [exact Sorting.argsort_rotated_contract|reflexivity..].
Defined.

(** With a breakpoint that is NaN the search stops in front of it: over the
    breakpoints 1, NaN with the values 10, 20 the call at NaN returns 10. *)
Lemma call_nan_breakpoint_example :
  exists f,
    __init__ argsort_stable (N.array1 [1; nan]%float) (N.array1 [10; 20]%float)
             0%float false = Ok f /\
    x f = [- N.inf; 1; nan]%float /\
    scipy.searchsorted (x f) nan = 2 /\
    __call__ f nan = Ok 10%float.
Proof. eexists. repeat split; reflexivity. Qed.

(** * More on ECDF *)

(** X10: ECDF raises nothing, whatever the sample (empty, with repeated
    points, with NaN) and whatever order the sorts give to equal points: it
    returns a StepFunction with one entry more than the sample has
    points. *)
Theorem ECDF_never_raises (N_sort : list float -> list float)
        (N_argsort : list float -> list nat) (values : list float) :
  sort_contract N_sort -> argsort_contract N_argsort ->
  exists f,
    ECDF N_sort N_argsort values = Ok f /\
    n f = S (length values) /\
    length (x f) = S (length values) /\
    length (y f) = S (length values).
Proof.
  intros Hs Ha.
  eexists. split; [apply (ECDFMore.ECDF_stored Hs Ha)|].
  assert (Hlen : length (N.divide (map (fun v => (v + 1)%float)
                                       (N.arange (length values)))
                                  (float_of_nat (length values)))
                 = length (N_sort values))
    by (now rewrite ECDFMore.ecdf_values_length, (Sorting.sort_length Hs)).
  destruct (@StepFunctionFacts.stored_lengths N_argsort Ha _ _ 0%float false Hlen)
    as [Hx [Hy Hn]].
  rewrite Hx, Hy, Hn, (Sorting.sort_length Hs). repeat split.
Qed.

Lemma ECDF_never_raises_witness :
  exists f,
    ECDF sort_stable argsort_rotated [nan; 1; 1]%float = Ok f /\
    n f = S (length [nan; 1; 1]%float) /\
    length (x f) = S (length [nan; 1; 1]%float) /\
    length (y f) = S (length [nan; 1; 1]%float).
Proof.
  apply (@ECDF_never_raises sort_stable argsort_rotated [nan; 1; 1]%float).
  - exact Sorting.sort_stable_contract.
  - exact Sorting.argsort_rotated_contract.
Defined.



(** With tied sample points the values of the ties may be stored in another
    order: on eight times 0 and eight times 1, with an argsort that is not
    stable, the value at the query point 1 is 0.25 and not 8/16. *)
Lemma ECDF_ties_example :
  exists f,
    ECDF sort_stable argsort_rotated (N.data ties_x) = Ok f /\
    x f = (- N.inf)%float :: N.data ties_x /\
    length (filter (fun v => (v <? 1)%float) (N.data ties_x)) = 8 /\
    __call__ f 1%float = Ok 0.25%float.
Proof. eexists. repeat split; reflexivity. Qed.



(** * More on rank and fullrank *)

Section RankMore.

Variable N_argsort : list float -> list nat.
Variable L_pinv : N.ndarray -> result N.ndarray.
Variable L_svd : N.ndarray -> result (matrix * list float * matrix).

(** X13: the rank is never negative and never above min(m, n): whenever
    [rank] returns on an m by n matrix, its result lies between 0 and the
    number min(m, n) of singular values. *)
Theorem rank_bounds (X : N.ndarray) (cond : float) (m n : nat) (r : Z) :
  svd_contract L_svd ->
  N.shape X = [m; n] ->
  rank L_pinv L_svd X cond = Ok r ->
  (0 <= r <= Z.of_nat (Nat.min m n))%Z.
Proof.
  intros Hc Hsh Hr.
  destruct (@rank_ok_inv L_pinv L_svd X cond r Hr) as [pX [V [D [U [d0 [rest [Hp [Hs [HD E]]]]]]]]].
  destruct (Hc _ _ _ _ Hs) as [m' [n' [Hsh' [Hlen _]]]].
  rewrite Shape.transpose_shape, Hsh in Hsh'. cbn [rev app] in Hsh'.
  assert (Em : m' = n) by congruence. assert (En : n' = m) by congruence.
  subst m' n'.
  pose proof (LinalgFacts.count_if_le_length
                (fun d => (cond <? d / d0)%float) D) as Hb.
  rewrite <- E, Hlen in Hb. lia.
Qed.

(** X14: the rank does not grow with the tolerance: for [cond1 <= cond2],
    [rank(X, cond2)] is at most [rank(X, cond1)]. *)
Theorem rank_antitone (X : N.ndarray) (cond1 cond2 : float) (r1 r2 : Z) :
  rank L_pinv L_svd X cond1 = Ok r1 ->
  rank L_pinv L_svd X cond2 = Ok r2 ->
  (cond1 <=? cond2)%float = true ->
  (r2 <= r1)%Z.
Proof.
  intros H1 H2 Hle.
  destruct (@rank_ok_inv L_pinv L_svd X cond1 r1 H1) as [pX [V [D [U [d0 [rest [Hp [Hs [HD E1]]]]]]]]].
  destruct (@rank_ok_inv L_pinv L_svd X cond2 r2 H2)
    as [pX' [V' [D' [U' [d0' [rest' [Hp' [Hs' [HD' E2]]]]]]]]].
  subst D D'. rewrite Hs in Hs'.
  assert (Ed : d0' = d0) by congruence.
  assert (Er : rest' = rest) by congruence.
  rewrite E1, E2, Ed, Er. apply LinalgFacts.count_if_mono.
  intros v Hv. eapply FloatOrder.leb_ltb_trans; eassumption.
Qed.

(** X15: with an [r] that is zero or negative the loop of [fullrank] does
    not run, and the result is the empty one-dimensional array of shape
    (0,), not a matrix with the rows of [X] and no column. *)
Theorem fullrank_nonpositive_r (X : N.ndarray) (V U : matrix) (D : list float)
        (r : Z) :
  L_svd X = Ok (V, D, U) ->
  (r <= 0)%Z ->
  fullrank N_argsort L_pinv L_svd X (Some r) = Ok (N.mk_ndarray [0] []).
Proof.
  intros Hs Hr. unfold fullrank. cbn [bind]. rewrite Hs. cbn [bind].
  unfold fullrank_value, range.
  replace (Z.to_nat r) with 0 by lia. reflexivity.
Qed.

(** X16: for a non-empty all-zero matrix and no [r], [fullrank] takes the
    rank 0 for [r] and returns the empty one-dimensional array of shape
    (0,). *)
Theorem fullrank_zero_matrix (X pX : N.ndarray) (V U V' U' : matrix)
        (D D' : list float) :
  svd_contract L_svd ->
  N.wf X -> N.size X <> 0 ->
  forallb is_zero (N.data X) = true ->
  L_pinv X = Ok pX ->
  L_svd (N.transpose X) = Ok (V, D, U) ->
  L_svd X = Ok (V', D', U') ->
  fullrank N_argsort L_pinv L_svd X None = Ok (N.mk_ndarray [0] []).
Proof.
  intros Hc Hwf Hsize Hz Hp Hs Hs'.
  unfold fullrank.
  destruct (@rank_of_zeros L_pinv L_svd X pX default_cond V U D
              Hc Hwf Hsize Hz Hp Hs) as [_ [_ Hr]].
  rewrite Hr. cbn [bind]. rewrite Hs'. reflexivity.
Qed.

End RankMore.

(** X17: the ordering [fullrank] computes, the reversed argsort of the
    singular values, lists every position of [D] exactly once and, when no
    singular value is NaN, in non-increasing order of the singular values,
    whatever order the argsort gives to equal values; and the loop of
    [fullrank] takes the columns of [V] at the first [r] positions of that
    ordering. *)
Theorem fullrank_order (N_argsort : list float -> list nat) (D : list float) :
  argsort_contract N_argsort ->
  nan_free D = true ->
  Permutation (rev (N_argsort D)) (seq 0 (length D)) /\
  NoDup (rev (N_argsort D)) /\
  descendingb (map (fun i => nth i D nan) (rev (N_argsort D))) = true /\
  (forall (V : matrix) (r : Z),
      length D <= length V ->
      Forall (fun row => length row = length V) V ->
      (r <= Z.of_nat (length D))%Z ->
      fullrank_value V (rev (N_argsort D)) r = Ok (top_columns N_argsort V D r)).
Proof.
  intros Hok Hnan.
  assert (Hp : Permutation (rev (N_argsort D)) (seq 0 (length D))).
  { rewrite <- Permutation_rev. apply (Sorting.argsort_perm Hok). }
  split; [assumption|]. split; [|split].
  - apply (Permutation_NoDup (Permutation_sym Hp)). apply seq_NoDup.
  - now apply LinalgFacts.reversed_argsort_descending.
  - intros V r HD Hrows Hr.
    now apply (@fullrank_value_ok N_argsort V D (length V) r).
Qed.

Lemma rank_bounds_witness :
  rank pinv_diagonal svd_diagonal matrix_diag_2_1 0.75%float = Ok 1%Z /\
  (0 <= 1 <= Z.of_nat (Nat.min 2 2))%Z.
Proof.
  split; [reflexivity|].
  apply (@rank_bounds pinv_diagonal svd_diagonal matrix_diag_2_1 0.75%float
                      2 2 1%Z).
  - exact SmallMatrices.svd_diagonal_contract.
  - reflexivity.
  - reflexivity.
Defined.

Lemma rank_antitone_witness :
  rank pinv_diagonal svd_diagonal matrix_diag_2_1 0.25%float = Ok 2%Z /\
  rank pinv_diagonal svd_diagonal matrix_diag_2_1 0.75%float = Ok 1%Z /\
  (1 <= 2)%Z.
Proof.
  split; [reflexivity|]. split; [reflexivity|].
  apply (@rank_antitone pinv_diagonal svd_diagonal matrix_diag_2_1
                        0.25%float 0.75%float 2%Z 1%Z);
    reflexivity.
Defined.

Lemma fullrank_nonpositive_r_witness :
  fullrank argsort_stable pinv_diagonal svd_diagonal matrix_diag_1_2 (Some (-3)%Z)
  = Ok (N.mk_ndarray [0] []).
Proof.
  apply (@fullrank_nonpositive_r argsort_stable pinv_diagonal svd_diagonal
           matrix_diag_1_2
           [[0; 1]; [1; 0]]%float [[0; 1]; [1; 0]]%float [2; 1]%float (-3)%Z).
  - reflexivity.
  - lia.
Defined.

Lemma fullrank_zero_matrix_witness :
  fullrank argsort_stable pinv_1x1 svd_1x1 matrix_0 None = Ok (N.mk_ndarray [0] []).
Proof.
  apply (@fullrank_zero_matrix argsort_stable pinv_1x1 svd_1x1 matrix_0
           (N.mk_ndarray [1; 1] [0%float])
           [[1%float]] [[1%float]] [[1%float]] [[1%float]]
           [0%float] [0%float]).
  - exact SmallMatrices.svd_1x1_contract.
  - reflexivity.
  - vm_compute. lia.
  - reflexivity.
  - reflexivity.
  - reflexivity.
  - reflexivity.
Defined.

Lemma fullrank_order_witness :
  Permutation (rev (argsort_rotated [1; 2; 2]%float)) (seq 0 3) /\
  NoDup (rev (argsort_rotated [1; 2; 2]%float)) /\
  descendingb (map (fun i => nth i [1; 2; 2]%float nan)
                   (rev (argsort_rotated [1; 2; 2]%float))) = true.
Proof.
  destruct (@fullrank_order argsort_rotated [1; 2; 2]%float
              Sorting.argsort_rotated_contract eq_refl) as [H1 [H2 [H3 _]]].
  split; [exact H1|]. split; [exact H2|exact H3].
Defined.
